(** * py3grads: the GrADS pipe protocol of [gacore.py]

    A shallow embedding of [Grads] and [GaEnv] (src/gacore.py): the frame
    reader [_parse_output], [move_pointer], [cmd], [flush], the teardown
    [__del__], the environment parser [GaEnv.__init__] and the grid export
    [exp], followed by the properties proved about them.

    Conventions.
    - Python [bytes] is [list byte]; Python [str] is a list of Unicode code
      points ([list N]).  String literals of the source are written with
      [lit] (str) and [blit] (bytes).
    - The GrADS process is seen through its two pipes: [stdout] holds the
      bytes waiting in the output pipe, [replies] what the process will
      write in answer to each further command, and [stdin_log] records
      every write, in order.
    - A method is a function [session -> outcome A]: it returns a value,
      raises a Python exception, or never returns ([Hang]); each time with
      the session as it has become. *)

From Stdlib Require Import Strings.String Strings.Ascii Strings.Byte.
From Stdlib Require Import List ZArith NArith QArith Qround Bool Lia.
Import ListNotations.

Close Scope Q_scope.
Local Open Scope Z_scope.

Set Implicit Arguments.

(* ================================================================== *)
(** * Python values: bytes, str and their operations *)
(* ================================================================== *)

Definition bytes := list byte.
Definition str := list N.

(** A [str] literal of the source. *)
Definition lit (s : string) : str :=
  List.map N_of_ascii (list_ascii_of_string s).

(** A [bytes] literal of the source. *)
Definition blit (s : string) : bytes := list_byte_of_string s.

(** ['\n'] as a code point and as a byte. *)
Definition NL : N := 10%N.
Definition bNL : byte := x0a.

Definition byte_of_N (n : N) : byte :=
  match Byte.of_N (n mod 256) with
  | Some b => b
  | None => x00
  end.

(** ** Sequence operations shared by [bytes] and [str] *)
Section Seq.
Variable A : Type.
Variable eqb : A -> A -> bool.

(** [s.startswith(p)]. *)
Fixpoint prefixb (p s : list A) : bool :=
  match p, s with
  | [], _ => true
  | _ :: _, [] => false
  | a :: p', b :: s' => eqb a b && prefixb p' s'
  end.

(** [p in s]: [p] occurs in [s] as a contiguous run. *)
Fixpoint infixb (p s : list A) : bool :=
  prefixb p s ||
  match s with
  | [] => false
  | _ :: s' => infixb p s'
  end.

(** [s.split(p)[0]]: what precedes the first occurrence of [p]
    (all of [s] when [p] does not occur). *)
Fixpoint before (p s : list A) : list A :=
  if prefixb p s then []
  else match s with
       | [] => []
       | a :: s' => a :: before p s'
       end.

(** Up to and including the first element satisfying [stop]. *)
Fixpoint upto (stop : A -> bool) (s : list A) : list A * list A :=
  match s with
  | [] => ([], [])
  | a :: s' =>
      if stop a then ([a], s')
      else let (l, r) := upto stop s' in (a :: l, r)
  end.
End Seq.

Definition in_str (p s : str) : bool := infixb N.eqb p s.
Definition in_bytes (p s : bytes) : bool := infixb Byte.eqb p s.

(** [sep.join(xs)]. *)
Fixpoint join (sep : str) (xs : list str) : str :=
  match xs with
  | [] => []
  | [x] => x
  | x :: rest => x ++ sep ++ join sep rest
  end.

(** [str.isspace] for one character (Unicode white space). *)
Definition isspace (c : N) : bool :=
  ((9 <=? c) && (c <=? 13) || (28 <=? c) && (c <=? 32) ||
   (c =? 133) || (c =? 160) || (c =? 5760) ||
   (8192 <=? c) && (c <=? 8202) ||
   (c =? 8232) || (c =? 8233) || (c =? 8239) || (c =? 8287) ||
   (c =? 12288))%N.

(** [s.split()]: the maximal runs of characters that are not white space.
    [cur] is the run being read. *)
Fixpoint split_ws (s cur : str) : list str :=
  match s with
  | [] => match cur with [] => [] | _ => [cur] end
  | c :: s' =>
      if isspace c
      then match cur with
           | [] => split_ws s' []
           | _ => cur :: split_ws s' []
           end
      else split_ws s' (cur ++ [c])
  end.

Definition split (s : str) : list str := split_ws s [].

(** [s.strip()]. *)
Fixpoint lstrip (s : str) : str :=
  match s with
  | c :: s' => if isspace c then lstrip s' else s
  | [] => []
  end.

Definition strip (s : str) : str := rev (lstrip (rev (lstrip s))).

(** ** [int(s)]

    Base 10: white space around, an optional sign, then digits in which
    single underscores may separate digits.  [None] is [ValueError].  Only
    the ASCII digits are read as digits. *)
Definition digit_of (c : N) : option Z :=
  if ((48 <=? c) && (c <=? 57))%N then Some (Z.of_N c - 48) else None.

Fixpoint int_digits (s : str) (acc : Z) (after_digit : bool) : option Z :=
  match s with
  | [] => if after_digit then Some acc else None
  | c :: s' =>
      match digit_of c with
      | Some d => int_digits s' (10 * acc + d) true
      | None =>
          if (c =? 95)%N && after_digit then int_digits s' acc false
          else None
      end
  end.

Definition int (s : str) : option Z :=
  match strip s with
  | [] => None
  | c :: s' =>
      if (c =? 45)%N then option_map Z.opp (int_digits s' 0 false)
      else if (c =? 43)%N then int_digits s' 0 false
      else int_digits (c :: s') 0 false
  end.



(* ================================================================== *)
(** * Codecs: [bytes.decode] and [str.encode] *)
(* ================================================================== *)

Inductive encoding := Utf8 | Latin1.

Definition between (lo hi : N) (b : byte) : bool :=
  ((lo <=? Byte.to_N b) && (Byte.to_N b <=? hi))%N.

(** The payload bits of a continuation byte. *)
Definition low6 (b : byte) : N := (Byte.to_N b mod 64)%N.

(** Strict UTF-8: shortest forms only, no surrogates, nothing above
    U+10FFFF.  [None] is [UnicodeDecodeError]. *)
Fixpoint decode_utf8 (bs : bytes) : option str :=
  match bs with
  | [] => Some []
  | b0 :: r0 =>
      let n0 := Byte.to_N b0 in
      if (n0 <? 128)%N then option_map (cons n0) (decode_utf8 r0)
      else if between 194 223 b0 then
        match r0 with
        | b1 :: r1 =>
            if between 128 191 b1
            then option_map (cons ((n0 mod 32) * 64 + low6 b1)%N)
                            (decode_utf8 r1)
            else None
        | _ => None
        end
      else if between 224 239 b0 then
        match r0 with
        | b1 :: b2 :: r2 =>
            if between (if (n0 =? 224)%N then 160 else 128)
                       (if (n0 =? 237)%N then 159 else 191) b1
               && between 128 191 b2
            then option_map
                   (cons ((n0 mod 16) * 4096 + low6 b1 * 64 + low6 b2)%N)
                   (decode_utf8 r2)
            else None
        | _ => None
        end
      else if between 240 244 b0 then
        match r0 with
        | b1 :: b2 :: b3 :: r3 =>
            if between (if (n0 =? 240)%N then 144 else 128)
                       (if (n0 =? 244)%N then 143 else 191) b1
               && between 128 191 b2 && between 128 191 b3
            then option_map
                   (cons ((n0 mod 8) * 262144 + low6 b1 * 4096
                          + low6 b2 * 64 + low6 b3)%N)
                   (decode_utf8 r3)
            else None
        | _ => None
        end
      else None
  end.

Definition decode (enc : encoding) (bs : bytes) : option str :=
  match enc with
  | Utf8 => decode_utf8 bs
  | Latin1 => Some (List.map Byte.to_N bs)
  end.

(** [s.encode('utf-8')]; [None] is [UnicodeEncodeError] (a surrogate). *)
Definition encode_char (c : N) : option bytes :=
  (if c <? 128 then Some [byte_of_N c]
   else if c <? 2048 then
     Some [byte_of_N (192 + c / 64); byte_of_N (128 + c mod 64)]
   else if (55296 <=? c) && (c <=? 57343) then None
   else if c <? 65536 then
     Some [byte_of_N (224 + c / 4096); byte_of_N (128 + (c / 64) mod 64);
           byte_of_N (128 + c mod 64)]
   else
     Some [byte_of_N (240 + c / 262144); byte_of_N (128 + (c / 4096) mod 64);
           byte_of_N (128 + (c / 64) mod 64); byte_of_N (128 + c mod 64)])%N.

Fixpoint encode_utf8 (s : str) : option bytes :=
  match s with
  | [] => Some []
  | c :: s' =>
      match encode_char c, encode_utf8 s' with
      | Some bs, Some rest => Some (bs ++ rest)
      | _, _ => None
      end
  end.

(* ================================================================== *)
(** * The session: a [Grads] object and its process *)
(* ================================================================== *)

Inductive exn :=
| GrADSError (msg : str)
| PygradsError (msg : str)
| IndexError
| KeyError (key : str)
| ValueError
| TypeError
| OverflowError
| UnicodeDecodeError
| UnicodeEncodeError
| BrokenPipeError
| AttributeError.

(** A [Grads] object together with its GrADS process.  The process
    answers every command written to it at once and completely: a write
    moves the next reply into the output pipe.  When no reply is left the
    process has exited: a write then fails and the output pipe is at end
    of file once it is drained. *)
Record session := mkSession {
  verbose : bool;              (* self.verbose *)
  stdin_closed : bool;         (* self.p.stdin.close() was called *)
  stdin_log : list bytes;      (* what was written to stdin, oldest first *)
  stdout : bytes;              (* what is in the output pipe now *)
  replies : list bytes;        (* the answers to the commands to come *)
  stdout_closed : bool;        (* self.p.stdout.close() was called *)
  console : list str           (* what print() has shown, oldest first *)
}.

Definition set_stdout (r : bytes) (st : session) : session :=
  mkSession (verbose st) (stdin_closed st) (stdin_log st) r (replies st)
            (stdout_closed st) (console st).

Definition exited (st : session) : bool :=
  match replies st with
  | [] => true
  | _ :: _ => false
  end.

Inductive outcome (A : Type) :=
| Ok (a : A) (st : session)
| Raise (e : exn) (st : session)
| Hang (st : session).

Arguments Hang {A} st.
Arguments Raise {A} e st.

Definition M (A : Type) := session -> outcome A.

Definition ret {A} (a : A) : M A := fun st => Ok a st.
Definition raise {A} (e : exn) : M A := fun st => Raise e st.
Definition hang {A} : M A := fun st => Hang st.

Definition bind {A B} (m : M A) (k : A -> M B) : M B :=
  fun st =>
    match m st with
    | Ok a st' => k a st'
    | Raise e st' => Raise e st'
    | Hang st' => Hang st'
    end.

Notation "x <- m ;; k" := (bind m (fun x => k))
  (at level 61, m at next level, right associativity).
Notation "m ;;; k" := (bind m (fun _ => k))
  (at level 61, right associativity).

(** [try: m  except: pass]. *)
Definition try_pass (m : M unit) : M unit :=
  fun st =>
    match m st with
    | Ok _ st' => Ok tt st'
    | Raise _ st' => Ok tt st'
    | Hang st' => Hang st'
    end.

(** The session an outcome ends in, or is stuck in. *)
Definition final {A} (o : outcome A) : session :=
  match o with
  | Ok _ st => st
  | Raise _ st => st
  | Hang st => st
  end.

(** ** Stream primitives *)

(** [self.p.stdin.write(data)]. *)
Definition stdin_write (data : bytes) : M unit :=
  fun st =>
    if stdin_closed st then Raise ValueError st
    else match replies st with
         | [] => Raise BrokenPipeError st
         | reply :: later =>
             Ok tt (mkSession (verbose st) false (stdin_log st ++ [data])
                              (stdout st ++ reply) later
                              (stdout_closed st) (console st))
         end.

(** [self.p.stdin.flush()]: the pipe is unbuffered, only a closed file
    complains. *)
Definition stdin_flush : M unit :=
  fun st => if stdin_closed st then Raise ValueError st else Ok tt st.

Definition stdin_close : M unit :=
  fun st =>
    Ok tt (mkSession (verbose st) true (stdin_log st) (stdout st)
                     (replies st) (stdout_closed st) (console st)).

Definition stdout_close : M unit :=
  fun st =>
    Ok tt (mkSession (verbose st) (stdin_closed st) (stdin_log st)
                     (stdout st) (replies st) true (console st)).

(** [self.p.stdout.readline()]: through the first ['\n']; at end of file
    what is left.  It blocks for ever when the line is incomplete and
    the process is waiting for a command. *)
Definition stdout_readline : M bytes :=
  fun st =>
    if stdout_closed st then Raise ValueError st
    else if existsb (Byte.eqb bNL) (stdout st) || exited st then
      let (l, r) := upto (Byte.eqb bNL) (stdout st) in
      Ok l (set_stdout r st)
    else Hang st.

(** [self.p.stdout.read(n)] on the unbuffered pipe: what is there, at
    most [n] bytes; nothing at end of file.  It blocks for ever when the
    pipe is empty and the process is waiting for a command. *)
Definition stdout_read (n : nat) : M bytes :=
  fun st =>
    if stdout_closed st then Raise ValueError st
    else match stdout st with
         | [] => if exited st then Ok [] st else Hang st
         | _ :: _ =>
             Ok (firstn n (stdout st)) (set_stdout (skipn n (stdout st)) st)
         end.

(** [self.p.stdout.readline().decode(encoding)]. *)
Definition readline_decode (enc : encoding) : M str :=
  l <- stdout_readline ;;
  match decode enc l with
  | Some t => ret t
  | None => raise UnicodeDecodeError
  end.

Definition print (s : str) : M unit :=
  fun st =>
    Ok tt (mkSession (verbose st) (stdin_closed st) (stdin_log st)
                     (stdout st) (replies st) (stdout_closed st)
                     (console st ++ [s])).

(** The number of rounds a reading loop can make on what is in the
    pipe: every round but the last two takes at least one byte. *)
Definition rounds (st : session) : nat := S (S (length (stdout st))).

(* ================================================================== *)
(** * class Grads *)
(* ================================================================== *)

Definition IPC : str := lit "IPC".
Definition terminated : exn := GrADSError (lit "GrADS terminated.").

(** [s[-1]]. *)
Definition last_char (s : str) : option N :=
  match rev s with
  | [] => None
  | c :: _ => Some c
  end.

(** First loop of [_parse_output]:
    [while markstart not in out: out = readline(); if len(out) == 0: raise]. *)
Fixpoint seek_start (fuel : nat) (markstart : str) (enc : encoding)
         (out : str) : M unit :=
  match fuel with
  | O => hang
  | S fuel' =>
      if in_str markstart out then ret tt
      else
        out' <- readline_decode enc ;;
        if (length out' =? 0)%nat then raise terminated
        else seek_start fuel' markstart enc out'
  end.

(** Second loop of [_parse_output], entered with the line after the
    opening tag in [out]. *)
Fixpoint collect (fuel : nat) (markend : str) (vb : bool) (enc : encoding)
         (out : str) (lines : list str) (rc : Z) : M (list str * Z) :=
  match fuel with
  | O => hang
  | S fuel' =>
      if in_str markend out then ret (lines, rc)
      else if (0 <? length out)%nat then
        if in_str (lit "<RC>") out then
          match nth_error (split out) 1 with
          | None => raise IndexError
          | Some tok =>
              match int tok with
              | None => raise ValueError
              | Some n =>
                  out' <- readline_decode enc ;;
                  collect fuel' markend vb enc out' lines n
              end
          end
        else
          let line := removelast out in
          (if vb then print line else ret tt) ;;;
          out' <- readline_decode enc ;;
          collect fuel' markend vb enc out' (lines ++ [line]) rc
      else raise terminated
  end.

Definition _parse_output (marker : str) (vb : bool) (enc : encoding)
  : M (list str * Z) :=
  let markstart := lit "<" ++ marker ++ lit ">" in
  let markend := lit "</" ++ marker ++ lit ">" in
  (fun st => seek_start (rounds st) markstart enc [] st) ;;;
  out <- readline_decode enc ;;
  fun st => collect (rounds st) markend vb enc out [] (-1) st.

(** Loop of [move_pointer]. *)
Fixpoint move_loop (fuel : nat) (marker : str) (enc : encoding) (vb : bool)
         (out : str) : M unit :=
  match fuel with
  | O => hang
  | S fuel' =>
      if in_str marker out then ret tt
      else
        out' <- readline_decode enc ;;
        (if vb then print out' else ret tt) ;;;
        if (length out' =? 0)%nat then raise terminated
        else move_loop fuel' marker enc vb out'
  end.

Definition move_pointer (marker : str) (enc : encoding) (vb : bool) : M unit :=
  fun st => move_loop (rounds st) marker enc vb [] st.

Definition cmd (gacmd : str) (vb block : bool) (enc : encoding)
  : M (list str * Z) :=
  match last_char gacmd with
  | None => raise IndexError
  | Some c =>
      let gacmd := if negb (c =? NL)%N then gacmd ++ [NL] else gacmd in
      match encode_utf8 gacmd with
      | None => raise UnicodeEncodeError
      | Some data =>
          stdin_write data ;;;
          stdin_flush ;;;
          if block then
            r <- (if vb
                  then fun st => _parse_output IPC (verbose st) enc st
                  else _parse_output IPC false enc) ;;
            let (outlines, rc) := r in
            let output := join [NL] outlines in
            if in_str (lit "Syntax Error") output
            then raise (GrADSError
                          (lit "Syntax Error while evaluating " ++ gacmd))
            else ret (outlines, rc)
          else ret ([], 0)
      end
  end.

Definition flush : M unit :=
  cmd (lit "q config") false true Utf8 ;;; ret tt.

Definition __del__ : M unit :=
  try_pass (cmd (lit "quit") true true Utf8 ;;;
            stdin_close ;;;
            stdout_close).


(** [Grads(launch, verbose)]: the process is started with both pipes
    open, writes [banner] and will answer with [script]; the launch
    output is dismissed. *)
Definition __init__ (vb : bool) (banner : bytes) (script : list bytes)
  : outcome unit :=
  (_parse_output IPC true Utf8 ;;; ret tt)
    (mkSession vb false [] banner script false []).

(* ================================================================== *)
(** * Library values used by [GaEnv] *)
(* ================================================================== *)

(** A Python [float]: a finite binary64 value is the rational it denotes. *)
Inductive pyfloat :=
| Finite (q : Q)
| Infinite (negative : bool)
| NaN.

(** [int(f(x))] for [f] one of [np.floor], [np.ceil], [np.round]. *)
Definition int_of (f : Q -> Z) (x : pyfloat) : M Z :=
  match x with
  | Finite q => ret (f q)
  | Infinite _ => raise OverflowError
  | NaN => raise ValueError
  end.

(** [np.round]: to the nearest integer, ties to the even one. *)
Definition Qround (q : Q) : Z :=
  let f := Qfloor q in
  match Qcompare (q - inject_Z f) (1 # 2) with
  | Lt => f
  | Gt => f + 1
  | Eq => if Z.even f then f else f + 1
  end.

(** The text-to-value conversions of the Python library, which the
    repository calls and does not define. *)
Class PyLib := {
  (** [datetime.datetime] *)
  datetime : Type;
  (** [float(s)]; [None] is [ValueError] *)
  float : str -> option pyfloat;
  (** [datetime.strptime(s, '%HZ%d%b%Y')]; [None] is [ValueError] *)
  strptime : str -> option datetime
}.

(** A dimension value: one number when the dimension is fixed, a pair
    when it varies. *)
Inductive dimval (A : Type) :=
| Single (v : A)
| Pair (lo hi : A).

Fixpoint seq_eqb (a b : str) : bool :=
  match a, b with
  | [], [] => true
  | c :: a', d :: b' => (c =? d)%N && seq_eqb a' b'
  | _, _ => false
  end.

(** [l[i]]. *)
Definition item {A} (l : list A) (i : nat) : M A :=
  match nth_error l i with
  | Some a => ret a
  | None => raise IndexError
  end.

(** [l[-1]]. *)
Definition item_last {A} (l : list A) : M A :=
  match rev l with
  | a :: _ => ret a
  | [] => raise IndexError
  end.

Definition int_ (s : str) : M Z :=
  match int s with
  | Some n => ret n
  | None => raise ValueError
  end.

(* ================================================================== *)
(** * class GaEnv *)
(* ================================================================== *)

Module GaEnv.
Section Init.
Context {lib : PyLib}.

Definition float_ (s : str) : M pyfloat :=
  match float s with
  | Some v => ret v
  | None => raise ValueError
  end.

Definition strptime_ (s : str) : M datetime :=
  match strptime s with
  | Some v => ret v
  | None => raise ValueError
  end.

(** What ["query dims"] sets. *)
Record Dims := mkDims {
  fid : Z;
  xfixed : bool; yfixed : bool; zfixed : bool; tfixed : bool;
  efixed : bool;
  lon : dimval pyfloat; x : dimval pyfloat; xi : dimval Z;
  lat : dimval pyfloat; y : dimval pyfloat; yi : dimval Z;
  lev : dimval pyfloat; z : dimval pyfloat; zi : dimval Z;
  time : dimval datetime; t : dimval pyfloat; ti : dimval Z;
  e : dimval pyfloat; ei : dimval Z;
  nx : Z; ny : Z; nz : Z; nt : Z; ne : Z;
  rank : Z
}.

(** What ["query ctlinfo"] sets; an attribute that was never assigned
    is [None]. *)
Record Ctl := mkCtl {
  Nx : option Z; Ny : option Z; Nz : option Z; Nt : option Z;
  Ne : Z
}.

(** What ["query gxout"] sets; Python's [None] is [None]. *)
Record Gx := mkGx {
  gx1Dscalar : option str; gx1Dvector : option str;
  gx2Dscalar : option str; gx2Dvector : option str;
  stationData : option str
}.

(** The object: each group of attributes exists when its query ran. *)
Record t_ := mkEnv {
  dims : option Dims;
  ctlinfo : option Ctl;
  gxout : option Gx
}.

(** The world coordinate of an axis ([lon], [lat], [lev], [time]):
    word 5 when fixed, words 5 and 7 when varying. *)
Definition world {A} (conv : str -> M A) (fixed : bool) (info : list str)
  : M (dimval A) :=
  if fixed then
    w <- item info 5 ;; v <- conv w ;; ret (Single v)
  else
    w <- item info 5 ;; lo <- conv w ;;
    w' <- item info 7 ;; hi <- conv w' ;;
    ret (Pair lo hi).

(** The grid coordinate of an axis ([x], [y], ...): word 8 when fixed,
    words 10 and 12 when varying. *)
Definition grid (fixed : bool) (info : list str) : M (dimval pyfloat) :=
  if fixed then
    w <- item info 8 ;; v <- float_ w ;; ret (Single v)
  else
    w <- item info 10 ;; lo <- float_ w ;;
    w' <- item info 12 ;; hi <- float_ w' ;;
    ret (Pair lo hi).

(** The integer grid coordinate ([xi], [yi], ...): rounded when fixed,
    floor of the low end and ceiling of the high end when varying. *)
Definition grid_index (fixed : bool) (g : dimval pyfloat) : M (dimval Z) :=
  if fixed then
    match g with
    | Single v => n <- int_of Qround v ;; ret (Single n)
    | Pair _ _ => raise TypeError
    end
  else
    match g with
    | Pair lo hi =>
        a <- int_of Qfloor lo ;; b <- int_of Qceiling hi ;;
        ret (Pair a b)
    | Single _ => raise TypeError
    end.

(** The length of an axis ([nx], [ny], ...). *)
Definition axis_length (fixed : bool) (gi : dimval Z) : M Z :=
  if fixed then ret 1
  else match gi with
       | Pair lo hi => ret (hi - lo + 1)
       | Single _ => raise TypeError
       end.

Definition fixed_in (line : str) : bool := in_str (lit "fixed") line.

Definition parse_dims (qdims : list str) : M Dims :=
  l0 <- item qdims 0 ;; w0 <- item_last (split l0) ;; fid <- int_ w0 ;;
  l1 <- item qdims 1 ;; let xfixed := fixed_in l1 in
  l2 <- item qdims 2 ;; let yfixed := fixed_in l2 in
  l3 <- item qdims 3 ;; let zfixed := fixed_in l3 in
  l4 <- item qdims 4 ;; let tfixed := fixed_in l4 in
  l5 <- item qdims 5 ;; let efixed := fixed_in l5 in
  let xinfo := split l1 in
  lon <- world float_ xfixed xinfo ;;
  x <- grid xfixed xinfo ;; xi <- grid_index xfixed x ;;
  let yinfo := split l2 in
  lat <- world float_ yfixed yinfo ;;
  y <- grid yfixed yinfo ;; yi <- grid_index yfixed y ;;
  let zinfo := split l3 in
  lev <- world float_ zfixed zinfo ;;
  z <- grid zfixed zinfo ;; zi <- grid_index zfixed z ;;
  let tinfo := split l4 in
  time <- world strptime_ tfixed tinfo ;;
  t <- grid tfixed tinfo ;; ti <- grid_index tfixed t ;;
  let einfo := split l5 in
  e <- grid efixed einfo ;; ei <- grid_index efixed e ;;
  nx <- axis_length xfixed xi ;;
  ny <- axis_length yfixed yi ;;
  nz <- axis_length zfixed zi ;;
  nt <- axis_length tfixed ti ;;
  ne <- axis_length efixed ei ;;
  let rank :=
    fold_right Z.add 0
      (List.map (fun d : bool => Z.b2z (negb d))
                [xfixed; yfixed; zfixed; tfixed; efixed]) in
  ret (mkDims fid xfixed yfixed zfixed tfixed efixed
              lon x xi lat y yi lev z zi time t ti e ei
              nx ny nz nt ne rank).

(** [int(line.split()[1])]. *)
Definition second_int (line : str) : M Z :=
  w <- item (split line) 1 ;; int_ w.

Definition has (kw : string) (line : str) : bool := in_str (lit kw) line.

(** The loop over the lines of ["query ctlinfo"]. *)
Fixpoint scan_ctl (qctl : list str) (c : Ctl) : M Ctl :=
  match qctl with
  | [] => ret c
  | line :: rest =>
      if has "xdef " line || has "XDEF " line then
        n <- second_int line ;;
        scan_ctl rest (mkCtl (Some n) (Ny c) (Nz c) (Nt c) (Ne c))
      else if has "ydef " line || has "YDEF " line then
        n <- second_int line ;;
        scan_ctl rest (mkCtl (Nx c) (Some n) (Nz c) (Nt c) (Ne c))
      else if has "zdef " line || has "ZDEF " line then
        n <- second_int line ;;
        scan_ctl rest (mkCtl (Nx c) (Ny c) (Some n) (Nt c) (Ne c))
      else if has "tdef " line || has "TDEF " line then
        n <- second_int line ;;
        scan_ctl rest (mkCtl (Nx c) (Ny c) (Nz c) (Some n) (Ne c))
      else if has "edef " line || has "EDEF " line then
        n <- second_int line ;;
        scan_ctl rest (mkCtl (Nx c) (Ny c) (Nz c) (Nt c) n)
      else scan_ctl rest c
  end.

Definition parse_ctl (qctl : list str) : M Ctl :=
  scan_ctl qctl (mkCtl None None None None 1).

(** The dict [graphicTypes]. *)
Definition graphicTypes : list (str * option str) :=
  [ (lit "Contour", Some (lit "contour")); (lit "Line", Some (lit "line"));
    (lit "Barb", Some (lit "barb")); (lit "16", Some (lit "shaded"));
    (lit "17", Some (lit "shade2b")); (lit "Shaded", Some (lit "shade1"));
    (lit "Vector", Some (lit "vector")); (lit "Shapefile", Some (lit "shp"));
    (lit "Bar", Some (lit "bar")); (lit "Grid", Some (lit "grid"));
    (lit "Grfill", Some (lit "grfill")); (lit "Stream", Some (lit "stream"));
    (lit "Errbar", Some (lit "errbar")); (lit "GeoTIFF", Some (lit "geotiff"));
    (lit "Fgrid", Some (lit "fgrid")); (lit "ImageMap", Some (lit "imap"));
    (lit "KML", Some (lit "kml")); (lit "Linefill", Some (lit "linefill"));
    (lit "Scatter", Some (lit "scatter")); (lit "Fwrite", Some (lit "fwrite"));
    (lit "0", None) ].

Fixpoint lookup (d : list (str * option str)) (k : str)
  : option (option str) :=
  match d with
  | [] => None
  | (k', v) :: d' => if seq_eqb k' k then Some v else lookup d' k
  end.

(** [graphicTypes[qgxout[i].split()[-1]]]. *)
Definition graphic (qgxout : list str) (i : nat) : M (option str) :=
  l <- item qgxout i ;; k <- item_last (split l) ;;
  match lookup graphicTypes k with
  | Some v => ret v
  | None => raise (KeyError k)
  end.

Definition parse_gxout (qgxout : list str) : M Gx :=
  g1 <- graphic qgxout 1 ;;
  g2 <- graphic qgxout 2 ;;
  g3 <- graphic qgxout 3 ;;
  g4 <- graphic qgxout 4 ;;
  l5 <- item qgxout 5 ;; sd <- item_last (split l5) ;;
  ret (mkGx g1 g2 g3 g4
            (if seq_eqb sd (lit "6") then None else Some sd)).

Definition wanted (query : str) (name : string) : bool :=
  seq_eqb query (lit name) || seq_eqb query (lit "all").

(** [ga.cmd(q, verbose=ga.verbose)], then the test of [rc]. *)
Definition run_query (q : string) : M (list str) :=
  r <- (fun st => cmd (lit q) (verbose st) true Utf8 st) ;;
  let (out, rc) := r in
  if 0 <? rc
  then raise (GrADSError (lit "Error running " ++ [34%N] ++ lit q ++ [34%N]))
  else ret out.

Definition __init__ (query : str) : M t_ :=
  d <- (if wanted query "dims"
        then qdims <- run_query "query dims" ;;
             v <- parse_dims qdims ;; ret (Some v)
        else ret None) ;;
  c <- (if wanted query "ctlinfo"
        then qctl <- run_query "query ctlinfo" ;;
             v <- parse_ctl qctl ;; ret (Some v)
        else ret None) ;;
  g <- (if wanted query "gxout"
        then qgxout <- run_query "query gxout" ;;
             v <- parse_gxout qgxout ;; ret (Some v)
        else ret None) ;;
  ret (mkEnv d c g).
End Init.
End GaEnv.

(* ================================================================== *)
(** * class Grads, continued: [env] and [exp] *)
(* ================================================================== *)

(** A 2D array of 32-bit floats: the four bytes of each element as they
    came off the pipe, and the shape it was reshaped to. *)
Definition float32 : Type := byte * byte * byte * byte.

Record ndarray := mkArray {
  data : list float32;
  shape : Z * Z
}.

(** [np.fromstring(buf, dtype=np.float32)]: [None] is the [ValueError]
    for a length that is not a multiple of four. *)
Fixpoint fromstring (buf : bytes) : option (list float32) :=
  match buf with
  | [] => Some []
  | a :: b :: c :: d :: rest => option_map (cons (a, b, c, d)) (fromstring rest)
  | _ => None
  end.

(** [arr.reshape((a, b))] on a flat array.  A negative length stands
    for the one length numpy works out itself, from the size and the
    other length, which must then divide the size and not be 0; with
    both given their product must be the size.  Everything else, two
    negative lengths included, is the [ValueError] of numpy. *)
Definition reshape (arr : list float32) (shp : Z * Z) : M ndarray :=
  let size := Z.of_nat (length arr) in
  let (a, b) := shp in
  if (a <? 0) && (b <? 0) then raise ValueError
  else if a <? 0 then
    if (b =? 0) || negb (size mod b =? 0) then raise ValueError
    else ret (mkArray arr (size / b, b))
  else if b <? 0 then
    if (a =? 0) || negb (size mod a =? 0) then raise ValueError
    else ret (mkArray arr (a, size / a))
  else if a * b =? size then ret (mkArray arr (a, b))
  else raise ValueError.

(** [l.index(v)]. *)
Fixpoint index (l : list Z) (v : Z) : option nat :=
  match l with
  | [] => None
  | a :: l' => if a =? v then Some O else option_map S (index l' v)
  end.

Inductive dim := DimX | DimY.

(** The list [possible_sizes] of [exp]: tuples [((nx, ny), size)]. *)
Definition possible_sizes (env_nx env_ny : Z) : list ((Z * Z) * Z) :=
  flat_map
    (fun d =>
       List.map
         (fun di =>
            let (nx, ny) := match d with
                            | DimX => (env_nx + di, env_ny)
                            | DimY => (env_nx, env_ny + di)
                            end in
            ((nx, ny), nx * ny))
         [-2; -1; 0; 1; 2])
    [DimX; DimY].

Definition unsupported (expr : str) : exn :=
  PygradsError (lit "Unsupported environment for export of expression: "
                ++ expr).

Definition problems (expr : str) : exn :=
  PygradsError (lit "Problems occurred while exporting GrADS expression: "
                ++ expr).

(** The conversion of the payload and the choice of the grid shape:
    the [try / except / else] of [exp]. *)
Definition resolve (env_nx env_ny : Z) (payload : bytes) (expr : str)
  : M (list float32 * (Z * Z)) :=
  let ps := possible_sizes env_nx env_ny in
  let dims := List.map fst ps in
  let sizes := List.map snd ps in
  match fromstring payload with
  | None => raise (problems expr)
  | Some arr =>
      let size := Z.of_nat (length arr) in
      if existsb (Z.eqb size) sizes then
        match index sizes size with
        | Some i => d <- item dims i ;; ret (arr, d)
        | None => raise ValueError
        end
      else raise (problems expr)
  end.

Definition chsize : nat := 4096.

(** The end of the binary data: [b'\n<RC>']. *)
Definition rc_mark : bytes := bNL :: blit "<RC>".

(** The [while True] loop of [exp]; [handle] is what was written to the
    [BytesIO] so far. *)
Fixpoint read_chunks (fuel : nat) (handle : bytes) : M bytes :=
  match fuel with
  | O => hang
  | S fuel' =>
      chunk <- stdout_read chsize ;;
      if in_bytes rc_mark chunk then
        flush ;;;
        ret (handle ++ before Byte.eqb rc_mark chunk)
      else read_chunks fuel' (handle ++ chunk)
  end.

Section Grid_export.
Context {lib : PyLib}.

Definition env (query : str) : M GaEnv.t_ := GaEnv.__init__ query.

Definition exp (expr : str) : M ndarray :=
  env <- env (lit "all") ;;
  match GaEnv.dims env with
  | None => raise AttributeError
  | Some d =>
      if (GaEnv.xfixed d || GaEnv.yfixed d) || negb (GaEnv.rank d =? 2)
      then raise (unsupported expr)
      else
        cmd (lit "set gxout fwrite") false true Utf8 ;;;
        cmd (lit "set fwrite -st -") false true Utf8 ;;;
        cmd (lit "display " ++ expr) false false Utf8 ;;;
        move_pointer (lit "<FWRITE>") Latin1 false ;;;
        payload <- (fun st => read_chunks (rounds st) [] st) ;;
        r <- resolve (GaEnv.nx d) (GaEnv.ny d) payload expr ;;
        let '(arr, (nx, ny)) := r in
        cmd (lit "disable fwrite") false true Utf8 ;;;
        match GaEnv.gxout env with
        | None => raise AttributeError
        | Some g =>
            match GaEnv.gx2Dscalar g with
            | None => raise TypeError
            | Some mode => cmd (lit "set gxout " ++ mode) false true Utf8
            end
        end ;;;
        reshape arr (ny, nx)
  end.
End Grid_export.

(* ================================================================== *)
(** * A reference library instance, to run the model on sample output *)
(* ================================================================== *)

(** Decimal literals [[-]ddd[.ddd]], read exactly.  Python's [float]
    returns the same value on every such literal that a binary64
    represents exactly (integers, halves, ...). *)
Fixpoint decimal_digits (s : str) (acc : Z) : option (Z * str) :=
  match s with
  | [] => Some (acc, [])
  | c :: s' =>
      match digit_of c with
      | Some d => decimal_digits s' (10 * acc + d)
      | None => if (c =? 46)%N then Some (acc, s') else None
      end
  end.

Definition decimal_unsigned (s : str) : option Q :=
  match s with
  | [] => None
  | _ =>
      match decimal_digits s 0 with
      | Some (n, []) => Some (inject_Z n)
      | Some (n, frac) =>
          match decimal_digits frac 0 with
          | Some (m, []) =>
              Some (Qplus (inject_Z n)
                          (Qmake m (Pos.pow 10 (Pos.of_nat (length frac)))))
          | _ => None
          end
      | None => None
      end
  end.

Definition decimal_float (s : str) : option pyfloat :=
  match s with
  | c :: s' =>
      if (c =? 45)%N
      then option_map (fun q => Finite (Qopp q)) (decimal_unsigned s')
      else option_map Finite (decimal_unsigned s)
  | [] => None
  end.

(** Time stamps in the form GrADS prints, [HHZDDMONYYYY]: kept as
    (year, month, day, hour). *)
Definition month_names : list str :=
  List.map lit ["JAN"; "FEB"; "MAR"; "APR"; "MAY"; "JUN";
                "JUL"; "AUG"; "SEP"; "OCT"; "NOV"; "DEC"]%string.

Fixpoint month_number (names : list str) (m : str) (k : Z) : option Z :=
  match names with
  | [] => None
  | n :: names' => if seq_eqb n m then Some k else month_number names' m (k + 1)
  end.

Definition grads_time (s : str) : option (Z * Z * Z * Z) :=
  match s with
  | [h1; h2; zc; d1; d2; m1; m2; m3; y1; y2; y3; y4] =>
      if (zc =? 90)%N then
        match int_digits [h1; h2] 0 false, int_digits [d1; d2] 0 false,
              month_number month_names [m1; m2; m3] 1,
              int_digits [y1; y2; y3; y4] 0 false with
        | Some h, Some d, Some m, Some y =>
            if (h <? 24) && (1 <=? d) && (d <=? 31) then Some (y, m, d, h)
            else None
        | _, _, _, _ => None
        end
      else None
  | _ => None
  end.

#[export] Instance reference_lib : PyLib := {
  datetime := Z * Z * Z * Z;
  float := decimal_float;
  strptime := grads_time
}.

(* ================================================================== *)
(** * Notions used to state the properties *)
(* ================================================================== *)

(** A session at rest: nothing in the pipes, the process gone. *)
Definition idle : session := mkSession true false [] [] [] false [].

(** The first candidate of a list whose element count is [size]. *)
Definition first_match (size : Z) (cands : list ((Z * Z) * Z))
  : option (Z * Z) :=
  option_map fst (find (fun c => snd c =? size) cands).

(** How far a candidate shape is from the nominal one. *)
Definition offset (env_nx env_ny : Z) (shp : Z * Z) : Z :=
  Z.abs (fst shp - env_nx) + Z.abs (snd shp - env_ny).

(** Two sessions that differ at most in what was read and printed: the
    same flags, the same writes, the same replies to come. *)
Definition same_input (st st' : session) : Prop :=
  verbose st' = verbose st /\
  stdin_closed st' = stdin_closed st /\
  stdin_log st' = stdin_log st /\
  replies st' = replies st /\
  stdout_closed st' = stdout_closed st.

(** A computation that only reads and prints. *)
Definition quiet {A} (m : M A) : Prop :=
  forall st, same_input st (final (m st)).

(** Does the command end in a newline already? *)
Definition ends_with_newline (gacmd : str) : bool :=
  match last_char gacmd with
  | Some c => (c =? NL)%N
  | None => false
  end.

(** The session right after [data] was written to a live process. *)
Definition after_write (data reply : bytes) (later : list bytes)
           (st : session) : session :=
  mkSession (verbose st) false (stdin_log st ++ [data])
            (stdout st ++ reply) later (stdout_closed st) (console st).

(** The command as it is sent: with a newline at its end. *)
Definition sent_form (gacmd : str) : str :=
  if ends_with_newline gacmd then gacmd else gacmd ++ [NL].

(** What a blocking [cmd] does once the command is written. *)
Definition await (sent : str) (vb : bool) (enc : encoding)
  : M (list str * Z) :=
  r <- _parse_output IPC vb enc ;;
  let (outlines, rc) := r in
  if in_str (lit "Syntax Error") (join [NL] outlines)
  then raise (GrADSError (lit "Syntax Error while evaluating " ++ sent))
  else ret (outlines, rc).

(** A reply that reports a syntax error and return code 0. *)
Definition syntax_error_reply : bytes := blit "<IPC>
Syntax Error:  Invalid Operand
<RC> 0
</IPC>
".

(** A live session about to answer with the bytes of [reply]. *)
Definition answering (reply : bytes) : session :=
  mkSession true false [] [] [reply] false [].

(** The last white-space separated word of a line, if it has one. *)
Definition last_token (line : str) : option str :=
  match rev (split line) with
  | k :: _ => Some k
  | [] => None
  end.

(** A ["query gxout"] answer whose station-data word, "Value", is not a
    key of the table. *)
Definition gxout_sample : list str :=
  List.map lit ["General = Contour"; "1D Graphic, 1 expr = Line";
                "1D Graphic, 2 expr = Barb"; "2D Graphic, 1 expr = Contour";
                "2D Graphic, 2 expr = Vector"; "Station data = Value"]%string.

(** The five axes of a descriptor file. *)
Inductive axis := AX | AY | AZ | AT | AE.

(** The keyword of an axis, in lower and in upper case, each followed by
    the blank the source looks for. *)
Definition keywords (a : axis) : string * string :=
  match a with
  | AX => ("xdef ", "XDEF ")
  | AY => ("ydef ", "YDEF ")
  | AZ => ("zdef ", "ZDEF ")
  | AT => ("tdef ", "TDEF ")
  | AE => ("edef ", "EDEF ")
  end%string.

Definition mentions (a : axis) (line : str) : bool :=
  in_str (lit (fst (keywords a))) line || in_str (lit (snd (keywords a))) line.

(** The axis a line of ["query ctlinfo"] counts for: the first of x, y,
    z, t, e whose keyword it contains. *)
Definition recognized (line : str) : option axis :=
  find (fun a => mentions a line) [AX; AY; AZ; AT; AE].

(** The total length recorded for an axis. *)
Definition total (a : axis) (c : GaEnv.Ctl) : option Z :=
  match a with
  | AX => GaEnv.Nx c
  | AY => GaEnv.Ny c
  | AZ => GaEnv.Nz c
  | AT => GaEnv.Nt c
  | AE => Some (GaEnv.Ne c)
  end.

(** Recording [n] as the total length of an axis. *)
Definition put (a : axis) (n : Z) (c : GaEnv.Ctl) : GaEnv.Ctl :=
  match a with
  | AX => GaEnv.mkCtl (Some n) (GaEnv.Ny c) (GaEnv.Nz c) (GaEnv.Nt c) (GaEnv.Ne c)
  | AY => GaEnv.mkCtl (GaEnv.Nx c) (Some n) (GaEnv.Nz c) (GaEnv.Nt c) (GaEnv.Ne c)
  | AZ => GaEnv.mkCtl (GaEnv.Nx c) (GaEnv.Ny c) (Some n) (GaEnv.Nt c) (GaEnv.Ne c)
  | AT => GaEnv.mkCtl (GaEnv.Nx c) (GaEnv.Ny c) (GaEnv.Nz c) (Some n) (GaEnv.Ne c)
  | AE => GaEnv.mkCtl (GaEnv.Nx c) (GaEnv.Ny c) (GaEnv.Nz c) (GaEnv.Nt c) n
  end.

(** A descriptor that spells its x axis keyword with a capital. *)
Definition ctl_sample : list str :=
  List.map lit ["dset ^model.dat"; "Xdef 144 linear 0 2.5";
                "ydef 73 linear -90 2.5"]%string.

(** How the integer window and the length of an axis derive from its
    grid coordinate: length 1 when the axis is fixed; otherwise the
    window runs from the floor of the low end to the ceiling of the high
    end, the length is its width, and the window is not empty when the
    low end is not above the high end. *)
Definition axis_derived (fixed : bool) (g : dimval pyfloat) (gi : dimval Z)
           (n : Z) : Prop :=
  if fixed then n = 1
  else exists lo hi,
      g = Pair (Finite lo) (Finite hi) /\
      gi = Pair (Qfloor lo) (Qceiling hi) /\
      n = Qceiling hi - Qfloor lo + 1 /\
      (Qle lo hi -> Qfloor lo <= Qceiling hi).

(** An answer to ["query dims"] in which x runs from 10 down to 3. *)
Definition dims_reversed : list str :=
  List.map lit ["Default file number is: 1";
                "X is varying   Lon = 0 to 360   X = 10 to 3";
                "Y is varying   Lat = -90 to 90   Y = 1 to 73";
                "Z is fixed     Lev = 1000  Z = 1";
                "T is fixed     Time = 00Z01JAN1987  T = 1";
                "E is fixed     Ens = 1  E = 1"]%string.

(** The answers of a GrADS with a 2 x 2 grid open: to ["query dims"],
    ["query ctlinfo"] and ["query gxout"]. *)
Definition dims_reply : bytes := blit "<IPC>
Default file number is: 1 
X is varying   Lon = 0 to 2.5   X = 1 to 2
Y is varying   Lat = -90 to -87.5   Y = 1 to 2
Z is fixed     Lev = 1000  Z = 1
T is fixed     Time = 00Z01JAN1987  T = 1
E is fixed     Ens = 1  E = 1
<RC> 0
</IPC>
".

Definition ctlinfo_reply : bytes := blit "<IPC>
dset ^model.dat
xdef 144 linear 0 2.5
ydef 73 linear -90 2.5
zdef 7 levels 1000 850 700 500 300 200 100
tdef 5 linear 00Z01JAN1987 1dy
<RC> 0
</IPC>
".

Definition gxout_reply : bytes := blit "<IPC>
General = Contour
1D Graphic, 1 expr = Line
1D Graphic, 2 expr = Barb
2D Graphic, 1 expr = Contour
2D Graphic, 2 expr = Vector
Station data = 6
<RC> 0
</IPC>
".

(** A live session about to give the answers [script]. *)
Definition scripted (script : list bytes) : session :=
  mkSession false false [] [] script false [].

(** A computation whose exceptions all satisfy [P]. *)
Definition raises_only (P : exn -> Prop) {A} (m : M A) : Prop :=
  forall st e st', m st = Raise e st' -> P e.

Definition not_pygrads (e : exn) : Prop :=
  match e with
  | PygradsError _ => False
  | _ => True
  end.

(** The number of varying axes of a dimension environment. *)
Definition varying_count `{PyLib} (d : GaEnv.Dims) : Z :=
  Z.of_nat (length (filter negb [GaEnv.xfixed d; GaEnv.yfixed d;
                                 GaEnv.zfixed d; GaEnv.tfixed d;
                                 GaEnv.efixed d])).

(** The three queries of a full environment, as they are written. *)
Definition env_queries : list bytes :=
  [blit "query dims" ++ [bNL]; blit "query ctlinfo" ++ [bNL];
   blit "query gxout" ++ [bNL]].

(** The answer to ["query dims"] when only the time axis and the level
    axis vary. *)
Definition dims_reply_zt : bytes := blit "<IPC>
Default file number is: 1 
X is fixed     Lon = 0  X = 1
Y is fixed     Lat = -90  Y = 1
Z is varying   Lev = 1000 to 100  Z = 1 to 7
T is varying   Time = 00Z01JAN1987 to 00Z05JAN1987  T = 1 to 5
E is fixed     Ens = 1  E = 1
<RC> 0
</IPC>
".

(** One complete line on the wire: bytes other than newline, then the
    newline. *)
Definition is_line (raw : bytes) : Prop :=
  exists b, raw = b ++ [bNL] /\ ~ In bNL b.

(** [raw] is one line on the wire and decodes to [text]. *)
Definition wire_line (enc : encoding) (raw : bytes) (text : str) : Prop :=
  is_line raw /\ decode enc raw = Some text.

(** What stands between the opening and the closing tag of a frame: a
    line of output [line], sent as [raw] with its newline, or a line
    carrying the return code [n]. *)
Inductive entry :=
| Text (raw : bytes) (line : str)
| Code (raw : bytes) (text : str) (n : Z).

Definition raw_of (e : entry) : bytes :=
  match e with
  | Text raw _ => raw
  | Code raw _ _ => raw
  end.

Definition well_formed (enc : encoding) (markend : str) (e : entry) : Prop :=
  match e with
  | Text raw line =>
      wire_line enc raw (line ++ [NL]) /\
      in_str markend (line ++ [NL]) = false /\
      in_str (lit "<RC>") (line ++ [NL]) = false
  | Code raw text n =>
      wire_line enc raw text /\
      in_str markend text = false /\
      in_str (lit "<RC>") text = true /\
      exists tok, nth_error (split text) 1 = Some tok /\ int tok = Some n
  end.

(** The lines of output of a frame body, in order. *)
Fixpoint texts (body : list entry) : list str :=
  match body with
  | [] => []
  | Text _ line :: body' => line :: texts body'
  | Code _ _ _ :: body' => texts body'
  end.

(** The return code of a frame body: the last one given, [rc] if none. *)
Fixpoint code (rc : Z) (body : list entry) : Z :=
  match body with
  | [] => rc
  | Text _ _ :: body' => code rc body'
  | Code _ _ n :: body' => code n body'
  end.

(** A line before the frame: it does not show the opening tag. *)
Definition noise (enc : encoding) (markstart : str) (raw : bytes) : Prop :=
  exists text, wire_line enc raw text /\ in_str markstart text = false.

(** The session once the pipe is read down to [rest] and [shown] was
    printed. *)
Definition consumed (rest : bytes) (shown : list str) (st : session)
  : session :=
  mkSession (verbose st) (stdin_closed st) (stdin_log st) rest (replies st)
            (stdout_closed st) (console st ++ shown).

(** An outcome that is not a wait without end. *)
Definition returns {A} (o : outcome A) : Prop := forall s, o <> Hang s.


(** The opening and the closing tag of a frame. *)
Definition open_tag (marker : str) : str := lit "<" ++ marker ++ lit ">".
Definition close_tag (marker : str) : str := lit "</" ++ marker ++ lit ">".

(** A frame on the wire: noise, the line with the opening tag, the
    body, the line with the closing tag. *)
Definition frame (enc : encoding) (marker : str) (pre : list bytes)
           (opening : bytes) (body : list entry) (closing : bytes) : Prop :=
  Forall (noise enc (open_tag marker)) pre /\
  (exists otext, wire_line enc opening otext /\
                 in_str (open_tag marker) otext = true) /\
  Forall (well_formed enc (close_tag marker)) body /\
  (exists ctext, wire_line enc closing ctext /\
                 in_str (close_tag marker) ctext = true).

Definition frame_bytes (pre : list bytes) (opening : bytes)
           (body : list entry) (closing : bytes) : bytes :=
  concat pre ++ opening ++ concat (List.map raw_of body) ++ closing.

(** A frame as GrADS sends it after some launch noise: two lines of
    output and return code 0. *)
Definition sample_pre : list bytes := [blit "Landscape mode? ('n' for portrait):" ++ [bNL]].
Definition sample_body : list entry :=
  [Text (blit "Config: v2.1.a3" ++ [bNL]) (lit "Config: v2.1.a3");
   Text (blit "Grid Analysis and Display System" ++ [bNL])
        (lit "Grid Analysis and Display System");
   Code (blit "<RC> 0" ++ [bNL]) (lit "<RC> 0" ++ [NL]) 0].

(** A computation that prints nothing. *)
Definition hushed {A} (m : M A) : Prop :=
  forall st, console (final (m st)) = console st.



(** A session whose pipe holds [out]; GrADS is alive and will answer a
    further command with [reply]. *)
Definition streaming (out reply : bytes) : session :=
  mkSession false false [] out [reply] false [].


(** A line on the wire, given with its decoded text, that does not show
    [marker]. *)
Definition passed (enc : encoding) (marker : str) (l : bytes * str) : Prop :=
  wire_line enc (fst l) (snd l) /\ in_str marker (snd l) = false.


(** An answer that is a well-formed frame without "Syntax Error". *)
Definition acknowledged (reply : bytes) : Prop :=
  exists pre opening body closing,
    reply = frame_bytes pre opening body closing /\
    frame Utf8 IPC pre opening body closing /\
    in_str (lit "Syntax Error") (join [NL] (texts body)) = false.

(** The session once [data] was written and the answer was read to its
    end without a word printed. *)
Definition told (data : bytes) (later : list bytes) (st : session)
  : session :=
  mkSession (verbose st) false (stdin_log st ++ [data]) [] later
            (stdout_closed st) (console st).

(** What GrADS sends for "display" when the grid goes to the pipe: lines
    up to the one with "<FWRITE>", the binary data, the end mark and
    the rest of the frame. *)
Definition grid_reply (pre : list (bytes * str)) (hit data tail : bytes)
  : bytes :=
  concat (List.map fst pre) ++ hit ++ data ++ rc_mark ++ tail.

(** The commands of [exp] after the environment is known, as they are
    written. *)
Definition export_commands (dexpr dmode : bytes) : list bytes :=
  [blit "set gxout fwrite" ++ [bNL]; blit "set fwrite -st -" ++ [bNL];
   dexpr; blit "q config" ++ [bNL]; blit "disable fwrite" ++ [bNL]; dmode].

(** A plain acknowledgement: return code 0 and no output. *)
Definition ack : bytes := blit "<IPC>
<RC> 0
</IPC>
".

(** The answer to ["query dims"] when both ranges run downwards: the
    lengths come out as -6 and -2. *)
Definition dims_reply_down : bytes := blit "<IPC>
Default file number is: 1 
X is varying   Lon = 0 to 360   X = 10 to 3
Y is varying   Lat = -90 to 90   Y = 5 to 2
Z is fixed     Lev = 1000  Z = 1
T is fixed     Time = 00Z01JAN1987  T = 1
E is fixed     Ens = 1  E = 1
<RC> 0
</IPC>
".

(** The answer to "display" with twelve equal values. *)
Definition grid_twelve : bytes :=
  grid_reply [(blit "<IPC>" ++ [bNL], lit "<IPC>" ++ [NL])]
             (blit "<FWRITE>" ++ [bNL]) (repeat x3f 48)
             (blit " 0" ++ [bNL] ++ blit "</IPC>" ++ [bNL]).

(** The answer to "display" for a 2 x 2 grid of four equal values. *)
Definition grid_sample : bytes :=
  grid_reply [(blit "<IPC>" ++ [bNL], lit "<IPC>" ++ [NL])]
             (blit "<FWRITE>" ++ [bNL]) (repeat x3f 16)
             (blit " 0" ++ [bNL] ++ blit "</IPC>" ++ [bNL]).

(** The commands of [exp] up to the point where the data is read. *)
Definition export_opening (dexpr : bytes) : list bytes :=
  [blit "set gxout fwrite" ++ [bNL]; blit "set fwrite -st -" ++ [bNL];
   dexpr; blit "q config" ++ [bNL]].

(** The answer to "display" for a grid of one value only. *)
Definition grid_short : bytes :=
  grid_reply [(blit "<IPC>" ++ [bNL], lit "<IPC>" ++ [NL])]
             (blit "<FWRITE>" ++ [bNL]) (repeat x3f 4)
             (blit " 0" ++ [bNL] ++ blit "</IPC>" ++ [bNL]).

(** The last steps of [exp], once the elements and the shape are
    known. *)
Definition finish `{PyLib} (env : GaEnv.t_) (r : list float32 * (Z * Z))
  : M ndarray :=
  let '(arr, (nx, ny)) := r in
  cmd (lit "disable fwrite") false true Utf8 ;;;
  match GaEnv.gxout env with
  | None => raise AttributeError
  | Some g =>
      match GaEnv.gx2Dscalar g with
      | None => raise TypeError
      | Some mode => cmd (lit "set gxout " ++ mode) false true Utf8
      end
  end ;;;
  reshape arr (ny, nx).

(** The first commands of [exp] after the environment is known, through
    "display". *)
Definition export_setup (dexpr : bytes) : list bytes :=
  [blit "set gxout fwrite" ++ [bNL]; blit "set fwrite -st -" ++ [bNL];
   dexpr].

(** What GrADS answers to "display" when it cannot evaluate the
    expression: a frame, and no "<FWRITE>" line. *)
Definition display_failed : list (bytes * str) :=
  [(blit "<IPC>" ++ [bNL], lit "<IPC>" ++ [NL]);
   (blit "DISPLAY error:  Invalid expression" ++ [bNL],
    lit "DISPLAY error:  Invalid expression" ++ [NL]);
   (blit "<RC> 1" ++ [bNL], lit "<RC> 1" ++ [NL]);
   (blit "</IPC>" ++ [bNL], lit "</IPC>" ++ [NL])].

(** The rest of [exp] once "display" is written. *)
Definition receive `{PyLib} (env : GaEnv.t_) (d : GaEnv.Dims) (expr : str)
  : M ndarray :=
  move_pointer (lit "<FWRITE>") Latin1 false ;;;
  payload <- (fun st => read_chunks (rounds st) [] st) ;;
  r <- resolve (GaEnv.nx d) (GaEnv.ny d) payload expr ;;
  finish env r.

(** The queries [GaEnv] writes for a query string. *)
Definition queries_of (query : str) : list bytes :=
  (if GaEnv.wanted query "dims" then [blit "query dims" ++ [bNL]] else [])
  ++ (if GaEnv.wanted query "ctlinfo"
      then [blit "query ctlinfo" ++ [bNL]] else [])
  ++ (if GaEnv.wanted query "gxout"
      then [blit "query gxout" ++ [bNL]] else []).

(* ================================================================== *)
(** * Properties *)
(* ================================================================== *)

(** ** Shape resolution *)

Lemma possible_sizes_order env_nx env_ny :
  List.map fst (possible_sizes env_nx env_ny) =
  [ (env_nx + -2, env_ny); (env_nx + -1, env_ny); (env_nx + 0, env_ny);
    (env_nx + 1, env_ny); (env_nx + 2, env_ny);
    (env_nx, env_ny + -2); (env_nx, env_ny + -1); (env_nx, env_ny + 0);
    (env_nx, env_ny + 1); (env_nx, env_ny + 2) ].
Proof. reflexivity. Qed.

Lemma index_first_match size cands :
  match first_match size cands with
  | Some shp =>
      existsb (Z.eqb size) (List.map snd cands) = true /\
      exists i, index (List.map snd cands) size = Some i /\
                nth_error (List.map fst cands) i = Some shp
  | None => existsb (Z.eqb size) (List.map snd cands) = false
  end.
Proof.
  unfold first_match.
  induction cands as [|[shp n] cands IH]; simpl; [reflexivity|].
  rewrite (Z.eqb_sym size n).
  destruct (n =? size) eqn:E; simpl.
  - split; [reflexivity|]. exists O. split; reflexivity.
  - destruct (find (fun c => snd c =? size) cands) as [[shp' n']|]; simpl in *.
    + destruct IH as [Hex [i [Hi Hn]]]. split; [assumption|].
      exists (S i). rewrite Hi. split; [reflexivity | assumption].
    + assumption.
Qed.

Lemma resolve_first_match_gen env_nx env_ny payload expr st arr :
  fromstring payload = Some arr ->
  resolve env_nx env_ny payload expr st =
  match first_match (Z.of_nat (length arr)) (possible_sizes env_nx env_ny) with
  | Some shp => Ok (arr, shp) st
  | None => Raise (problems expr) st
  end.
Proof.
  intros Hp. unfold resolve. rewrite Hp.
  pose proof (index_first_match (Z.of_nat (length arr))
                                (possible_sizes env_nx env_ny)) as H.
  destruct (first_match _ _) as [shp|].
  - destruct H as [Hex [i [Hi Hn]]]. rewrite Hex, Hi.
    unfold bind, item. rewrite Hn. reflexivity.
  - rewrite H. reflexivity.
Qed.

Lemma nominal_first_match env_nx env_ny :
  env_ny <> 0 ->
  first_match (env_nx * env_ny) (possible_sizes env_nx env_ny)
  = Some (env_nx, env_ny).
Proof.
  intros Hny. unfold first_match, possible_sizes. simpl.
  assert (H2 : ((env_nx + -2) * env_ny =? env_nx * env_ny) = false)
    by (apply Z.eqb_neq; nia).
  assert (H1 : ((env_nx + -1) * env_ny =? env_nx * env_ny) = false)
    by (apply Z.eqb_neq; nia).
  assert (H0 : ((env_nx + 0) * env_ny =? env_nx * env_ny) = true)
    by (apply Z.eqb_eq; nia).
  rewrite H2, H1, H0. simpl. rewrite Z.add_0_r. reflexivity.
Qed.

(** C3 (as amended): the payload is cut into 32-bit elements; the grid
    takes the shape of the first candidate, in the order x offsets -2..+2
    then y offsets -2..+2, whose element count nx*ny is the payload's;
    that is the nominal shape when the count is env_nx*env_ny and env_ny
    is not zero; when no candidate has that count the export fails with
    the "Problems occurred" PygradsError. *)
Theorem resolve_takes_first_match env_nx env_ny payload expr st arr :
  fromstring payload = Some arr ->
  let size := Z.of_nat (length arr) in
  let cands := possible_sizes env_nx env_ny in
  (size = env_nx * env_ny -> env_ny <> 0 ->
   resolve env_nx env_ny payload expr st = Ok (arr, (env_nx, env_ny)) st) /\
  (forall shp, first_match size cands = Some shp ->
   resolve env_nx env_ny payload expr st = Ok (arr, shp) st) /\
  (first_match size cands = None ->
   resolve env_nx env_ny payload expr st = Raise (problems expr) st).
Proof.
  intros Hp size cands.
  pose proof (resolve_first_match_gen env_nx env_ny payload expr st Hp) as R.
  subst size cands.
  repeat split.
  - intros Hs Hny. rewrite R, Hs, (nominal_first_match env_nx Hny). reflexivity.
  - intros shp Hm. rewrite R, Hm. reflexivity.
  - intros Hm. rewrite R, Hm. reflexivity.
Qed.

Lemma resolve_takes_first_match_witness :
  let payload := repeat x00 16 in
  let arr := repeat (x00, x00, x00, x00) 4 in
  resolve 2 2 payload [] idle = Ok (arr, (2, 2)) idle.
Proof.
  intros payload arr.
  refine (proj1 (@resolve_takes_first_match 2 2 payload [] idle arr _) _ _).
  - reflexivity.
  - reflexivity.
  - lia.
Defined.

(** C3 as stated fails twice.  With a nominal 4 x 2 grid and 12 elements
    the shape (6, 2), two columns off, is taken although (4, 3), one row
    off, has 12 elements too; and with env_ny = 0 an empty payload has the
    nominal count 5 * 0 yet the shape (3, 0) is returned. *)
Lemma resolve_not_nearest_nor_nominal :
  (let arr := repeat (x00, x00, x00, x00) 12 in
   resolve 4 2 (repeat x00 48) [] idle = Ok (arr, (6, 2)) idle /\
   In ((4, 3), 12) (possible_sizes 4 2) /\
   offset 4 2 (4, 3) < offset 4 2 (6, 2)) /\
  (Z.of_nat (length (@nil float32)) = 5 * 0 /\
   resolve 5 0 [] [] idle = Ok ([], (3, 0)) idle).
Proof.
  split; [|split; reflexivity].
  split; [reflexivity|]. split; [|reflexivity].
  simpl. tauto.
Qed.

(** ** Computations that only read *)

Lemma same_input_refl st : same_input st st.
Proof. repeat split. Qed.

Lemma same_input_trans st1 st2 st3 :
  same_input st1 st2 -> same_input st2 st3 -> same_input st1 st3.
Proof.
  unfold same_input. intros (A1 & A2 & A3 & A4 & A5) (B1 & B2 & B3 & B4 & B5).
  repeat split; congruence.
Qed.

Lemma quiet_ret {A} (a : A) : quiet (ret a).
Proof. intros st. apply same_input_refl. Qed.

Lemma quiet_raise {A} e : quiet (@raise A e).
Proof. intros st. apply same_input_refl. Qed.

Lemma quiet_hang {A} : quiet (@hang A).
Proof. intros st. apply same_input_refl. Qed.

Lemma quiet_bind {A B} (m : M A) (k : A -> M B) :
  quiet m -> (forall a, quiet (k a)) -> quiet (bind m k).
Proof.
  intros Hm Hk st. unfold bind. specialize (Hm st).
  destruct (m st) as [a st'|e st'|st']; simpl in *; try assumption.
  eapply same_input_trans; [exact Hm | apply Hk].
Qed.

Lemma quiet_at {A} (f : session -> M A) :
  (forall s, quiet (f s)) -> quiet (fun st => f st st).
Proof. intros H st. apply (H st). Qed.

Lemma quiet_print s : quiet (print s).
Proof. intros st. repeat split. Qed.

Lemma quiet_readline : quiet stdout_readline.
Proof.
  intros st. unfold stdout_readline.
  destruct (stdout_closed st); [apply same_input_refl|].
  destruct (existsb _ _ || exited st); [|apply same_input_refl].
  destruct (upto _ _). repeat split.
Qed.

Lemma quiet_read n : quiet (stdout_read n).
Proof.
  intros st. unfold stdout_read.
  destruct (stdout_closed st); [apply same_input_refl|].
  destruct (stdout st); [destruct (exited st); apply same_input_refl|].
  repeat split.
Qed.

Lemma quiet_readline_decode enc : quiet (readline_decode enc).
Proof.
  apply quiet_bind; [apply quiet_readline|].
  intros l. destruct (decode enc l); [apply quiet_ret | apply quiet_raise].
Qed.

Create HintDb quiet.

#[local] Hint Resolve quiet_ret quiet_raise quiet_hang quiet_print
  quiet_readline quiet_read quiet_readline_decode : quiet.

Ltac quiet_step :=
  match goal with
  | |- quiet (bind _ _) => apply quiet_bind; [|intros ?]
  | |- quiet (if ?b then _ else _) => destruct b
  | |- quiet (match ?x with _ => _ end) => destruct x
  | |- quiet _ => solve [auto with quiet]
  end.

Lemma quiet_seek_start fuel markstart enc out :
  quiet (seek_start fuel markstart enc out).
Proof.
  revert out. induction fuel as [|fuel IH]; intros out; simpl;
    repeat quiet_step; apply IH.
Qed.

Lemma quiet_collect fuel markend vb enc out lines rc :
  quiet (collect fuel markend vb enc out lines rc).
Proof.
  revert out lines rc. induction fuel as [|fuel IH]; intros out lines rc;
    simpl; repeat quiet_step; apply IH.
Qed.

Lemma quiet_move_loop fuel marker enc vb out :
  quiet (move_loop fuel marker enc vb out).
Proof.
  revert out. induction fuel as [|fuel IH]; intros out; simpl;
    repeat quiet_step; apply IH.
Qed.

Lemma quiet_parse_output marker vb enc : quiet (_parse_output marker vb enc).
Proof.
  unfold _parse_output. apply quiet_bind.
  - apply (quiet_at (fun s => seek_start (rounds s) _ enc [])).
    intros s. apply quiet_seek_start.
  - intros _. apply quiet_bind; [apply quiet_readline_decode|].
    intros out.
    apply (quiet_at (fun s => collect (rounds s) _ vb enc out [] (-1))).
    intros s. apply quiet_collect.
Qed.

Lemma quiet_move_pointer marker enc vb : quiet (move_pointer marker enc vb).
Proof.
  unfold move_pointer.
  apply (quiet_at (fun s => move_loop (rounds s) marker enc vb [])).
  intros s. apply quiet_move_loop.
Qed.

(** ** Sending a command *)

Lemma last_char_app s c : last_char (s ++ [c]) = Some c.
Proof. unfold last_char. rewrite rev_app_distr. reflexivity. Qed.

Lemma last_char_some s c : last_char s = Some c -> exists s', s = s' ++ [c].
Proof.
  unfold last_char. intros H. destruct (rev s) as [|d r] eqn:E; [discriminate|].
  inversion H; subst. exists (rev r).
  rewrite <- (rev_involutive s), E. reflexivity.
Qed.

Lemma last_char_none s : last_char s = None -> s = [].
Proof.
  unfold last_char. intros H. destruct (rev s) as [|d r] eqn:E; [|discriminate].
  rewrite <- (rev_involutive s), E. reflexivity.
Qed.

Lemma sent_form_newline gacmd : last_char (sent_form gacmd) = Some NL.
Proof.
  unfold sent_form, ends_with_newline.
  destruct (last_char gacmd) as [c|] eqn:E.
  - destruct (c =? NL)%N eqn:Ec; [|apply last_char_app].
    apply N.eqb_eq in Ec. congruence.
  - apply last_char_app.
Qed.

Lemma encode_utf8_app s t :
  encode_utf8 (s ++ t) =
  match encode_utf8 s, encode_utf8 t with
  | Some a, Some b => Some (a ++ b)
  | _, _ => None
  end.
Proof.
  induction s as [|c s IH]; simpl.
  - destruct (encode_utf8 t); reflexivity.
  - rewrite IH. destruct (encode_char c); [|reflexivity].
    destruct (encode_utf8 s); [|reflexivity].
    destruct (encode_utf8 t); [|reflexivity].
    rewrite app_assoc. reflexivity.
Qed.

Lemma encode_ends_newline s data :
  last_char s = Some NL -> encode_utf8 s = Some data -> last data x00 = bNL.
Proof.
  intros Hl He. apply last_char_some in Hl. destruct Hl as [s' ->].
  rewrite encode_utf8_app in He. destruct (encode_utf8 s') as [a|]; [|discriminate].
  simpl in He. inversion He; subst. apply last_last.
Qed.

(** [cmd] on a live process whose input is open: the command is written
    with its newline, the process answers, and a blocking call reads the
    answer. *)
Lemma cmd_live gacmd vb block enc st data reply later :
  gacmd <> [] ->
  encode_utf8 (sent_form gacmd) = Some data ->
  stdin_closed st = false ->
  replies st = reply :: later ->
  cmd gacmd vb block enc st =
  (if block then await (sent_form gacmd) (vb && verbose st) enc
   else ret ([], 0)) (after_write data reply later st).
Proof.
  intros Hne He Hc Hr. unfold cmd, sent_form, ends_with_newline in *.
  destruct (last_char gacmd) as [c|] eqn:El;
    [|apply last_char_none in El; contradiction].
  destruct (c =? NL)%N; simpl in *; rewrite He;
    unfold bind at 1; unfold stdin_write; rewrite Hc, Hr;
    unfold bind at 1; unfold stdin_flush; simpl;
    destruct block; try reflexivity;
    destruct vb; reflexivity.
Qed.

Lemma quiet_await sent vb enc : quiet (await sent vb enc).
Proof.
  unfold await. apply quiet_bind; [apply quiet_parse_output|].
  intros [outlines rc]. destruct (in_str _ _); auto with quiet.
Qed.

(** What [cmd] leaves in the log of writes: nothing, or the one command
    with its newline. *)
Lemma cmd_log gacmd vb block enc st :
  let st' := final (cmd gacmd vb block enc st) in
  stdin_log st' = stdin_log st \/
  exists data, encode_utf8 (sent_form gacmd) = Some data /\
               stdin_log st' = stdin_log st ++ [data].
Proof.
  simpl. destruct gacmd as [|c0 g0] eqn:Eg.
  { left. reflexivity. }
  rewrite <- Eg. assert (Hne : gacmd <> []) by (subst; discriminate).
  clear Eg c0 g0.
  destruct (encode_utf8 (sent_form gacmd)) as [data|] eqn:He.
  - destruct (stdin_closed st) eqn:Hc.
    + left. unfold cmd, sent_form, ends_with_newline in *.
      destruct (last_char gacmd) as [c|]; [|reflexivity].
      destruct (c =? NL)%N; simpl in *; rewrite He;
        unfold bind, stdin_write; rewrite Hc; reflexivity.
    + destruct (replies st) as [|reply later] eqn:Hr.
      * left. unfold cmd, sent_form, ends_with_newline in *.
        destruct (last_char gacmd) as [c|]; [|reflexivity].
        destruct (c =? NL)%N; simpl in *; rewrite He;
          unfold bind, stdin_write; rewrite Hc, Hr; reflexivity.
      * right. exists data. split; [reflexivity|].
        rewrite (@cmd_live gacmd vb block enc st data reply later Hne He Hc Hr).
        assert (Q : quiet (if block
                           then await (sent_form gacmd) (vb && verbose st) enc
                           else ret ([], 0)))
          by (destruct block; [apply quiet_await | apply quiet_ret]).
        destruct (Q (after_write data reply later st)) as (_ & _ & L & _).
        rewrite L. reflexivity.
  - left. unfold cmd, sent_form, ends_with_newline in *.
    destruct (last_char gacmd) as [c|]; [|reflexivity].
    destruct (c =? NL)%N; simpl in *; rewrite He; reflexivity.
Qed.

(** C10: the empty command fails on [gacmd[-1]] with nothing written.
    For every other command the last-character check and the append
    never fail: the form that is sent is the command itself when it ends
    in a newline and the command plus a newline otherwise, it ends in a
    newline, and [cmd] goes on to encode and write it.  When it cannot
    be encoded, or the input pipe is closed, or GrADS has exited, [cmd]
    raises the error of that step with nothing written; otherwise it
    writes the encoded form, whose last byte is the newline, once, and
    carries on with the answer. *)
Theorem cmd_appends_newline :
  (forall vb block enc st, cmd [] vb block enc st = Raise IndexError st) /\
  (forall gacmd, gacmd <> [] ->
   exists sent,
     sent = (if ends_with_newline gacmd then gacmd else gacmd ++ [NL]) /\
     last_char sent = Some NL /\
     forall vb block enc st,
       match encode_utf8 sent with
       | None => cmd gacmd vb block enc st = Raise UnicodeEncodeError st
       | Some data =>
           last data x00 = bNL /\
           if stdin_closed st
           then cmd gacmd vb block enc st = Raise ValueError st
           else match replies st with
                | [] => cmd gacmd vb block enc st = Raise BrokenPipeError st
                | reply :: later =>
                    cmd gacmd vb block enc st =
                    (if block then await sent (vb && verbose st) enc
                     else ret ([], 0)) (after_write data reply later st) /\
                    stdin_log (final (cmd gacmd vb block enc st)) =
                    stdin_log st ++ [data]
                end
       end).
Proof.
  split; [reflexivity|].
  intros gacmd Hne. exists (sent_form gacmd).
  split; [reflexivity|]. split; [apply sent_form_newline|].
  intros vb block enc st.
  destruct (encode_utf8 (sent_form gacmd)) as [data|] eqn:He.
  - split; [eapply encode_ends_newline; [apply sent_form_newline | exact He]|].
    destruct (stdin_closed st) eqn:Hc.
    + unfold cmd, sent_form, ends_with_newline in *.
      destruct (last_char gacmd) as [c|] eqn:El;
        [|apply last_char_none in El; contradiction].
      destruct (c =? NL)%N; simpl in *; rewrite He;
        unfold bind, stdin_write; rewrite Hc; reflexivity.
    + destruct (replies st) as [|reply later] eqn:Hr.
      * unfold cmd, sent_form, ends_with_newline in *.
        destruct (last_char gacmd) as [c|] eqn:El;
          [|apply last_char_none in El; contradiction].
        destruct (c =? NL)%N; simpl in *; rewrite He;
          unfold bind, stdin_write; rewrite Hc, Hr; reflexivity.
      * rewrite (@cmd_live gacmd vb block enc st data reply later Hne He Hc Hr).
        split; [reflexivity|].
        assert (Q : quiet (if block
                           then await (sent_form gacmd) (vb && verbose st) enc
                           else ret ([], 0)))
          by (destruct block; [apply quiet_await | apply quiet_ret]).
        destruct (Q (after_write data reply later st)) as (_ & _ & L & _).
        rewrite L. reflexivity.
  - unfold cmd, sent_form, ends_with_newline in *.
    destruct (last_char gacmd) as [c|] eqn:El;
      [|apply last_char_none in El; contradiction].
    destruct (c =? NL)%N; simpl in *; rewrite He; reflexivity.
Qed.

Lemma cmd_appends_newline_witness :
  exists sent,
    sent = lit "quit" ++ [NL] /\
    last_char sent = Some NL /\
    last (blit "quit" ++ [bNL]) x00 = bNL /\
    cmd (lit "quit") true false Utf8 (answering []) =
    Ok ([], 0) (after_write (blit "quit" ++ [bNL]) [] [] (answering [])) /\
    stdin_log (final (cmd (lit "quit") true false Utf8 (answering [])))
    = [blit "quit" ++ [bNL]].
Proof.
  destruct (proj2 cmd_appends_newline (lit "quit")) as [sent [Hs [Hl Hw]]].
  - discriminate.
  - specialize (Hw true false Utf8 (answering [])).
    assert (He : encode_utf8 sent = Some (blit "quit" ++ [bNL]))
      by (rewrite Hs; reflexivity).
    rewrite He in Hw. destruct Hw as [Hb [Hc Hlog]].
    exists sent. split; [exact Hs|]. split; [exact Hl|].
    split; [exact Hb|]. split; [exact Hc | exact Hlog].
Defined.

(** ** Syntax errors *)

(** C6: when the frame reader of a blocking [cmd] returns lines whose
    join contains "Syntax Error", [cmd] raises the GrADSError "Syntax
    Error while evaluating" followed by the command, whatever the return
    code of the frame is; so a blocking [cmd] never returns such lines. *)
Theorem cmd_syntax_error gacmd vb enc st data reply later lines rc st' :
  gacmd <> [] ->
  encode_utf8 (sent_form gacmd) = Some data ->
  stdin_closed st = false ->
  replies st = reply :: later ->
  _parse_output IPC (vb && verbose st) enc (after_write data reply later st)
  = Ok (lines, rc) st' ->
  in_str (lit "Syntax Error") (join [NL] lines) = true ->
  cmd gacmd vb true enc st =
  Raise (GrADSError (lit "Syntax Error while evaluating " ++ sent_form gacmd))
        st'.
Proof.
  intros Hne He Hc Hr Hp Hs.
  rewrite (@cmd_live gacmd vb true enc st data reply later Hne He Hc Hr).
  unfold await, bind. rewrite Hp, Hs. reflexivity.
Qed.

Lemma cmd_syntax_error_witness :
  exists st',
    cmd (lit "d 1 +") true true Utf8 (answering syntax_error_reply) =
    Raise (GrADSError (lit "Syntax Error while evaluating d 1 +" ++ [NL])) st'.
Proof.
  eexists.
  refine (@cmd_syntax_error (lit "d 1 +") true Utf8
            (answering syntax_error_reply) (blit "d 1 +" ++ [bNL])
            syntax_error_reply []
            [lit "Syntax Error:  Invalid Operand"] 0 _ _ _ _ _ _ _).
  - discriminate.
  - reflexivity.
  - reflexivity.
  - reflexivity.
  - vm_compute. reflexivity.
  - reflexivity.
Defined.

Lemma cmd_returns_no_syntax_error gacmd vb enc st lines rc st' :
  cmd gacmd vb true enc st = Ok (lines, rc) st' ->
  in_str (lit "Syntax Error") (join [NL] lines) = false.
Proof.
  unfold cmd. destruct (last_char gacmd) as [c|]; [|discriminate].
  destruct (encode_utf8 _) as [data|]; [|discriminate].
  unfold bind. destruct (stdin_write data st) as [u s1|e s1|s1]; try discriminate.
  destruct (stdin_flush s1) as [u' s2|e s2|s2]; try discriminate.
  destruct (if vb then _ else _) as [[ls r] s3|e s3|s3]; try discriminate.
  destruct (in_str _ (join [NL] ls)) eqn:E; [discriminate|].
  unfold ret. intros H. inversion H; subst. exact E.
Qed.

(** ** Teardown *)

(** C9: [__del__] never raises, in any session; when the quit command
    goes through, both pipes are closed afterwards; when it fails, with
    whatever exception, the session is left as the failure left it; and
    when the process has already exited, the broken pipe is swallowed and
    nothing changes. *)
Theorem del_never_raises :
  (forall st e st', __del__ st <> Raise e st') /\
  (forall st r st',
     cmd (lit "quit") true true Utf8 st = Ok r st' ->
     exists st'', __del__ st = Ok tt st'' /\
                  stdin_closed st'' = true /\ stdout_closed st'' = true /\
                  stdin_log st'' = stdin_log st') /\
  (forall st e st',
     cmd (lit "quit") true true Utf8 st = Raise e st' ->
     __del__ st = Ok tt st') /\
  (forall st, stdin_closed st = false -> exited st = true ->
     cmd (lit "quit") true true Utf8 st = Raise BrokenPipeError st /\
     __del__ st = Ok tt st).
Proof.
  repeat split.
  - intros st e st'. unfold __del__, try_pass.
    destruct (bind _ _ st); discriminate.
  - intros st r st' H. unfold __del__, try_pass, bind. rewrite H. simpl.
    eexists. split; [reflexivity|]. repeat split.
  - intros st e st' H. unfold __del__, try_pass, bind. rewrite H. reflexivity.
  - unfold cmd, exited in *. simpl. unfold bind, stdin_write.
    rewrite H. destruct (replies st); [reflexivity | discriminate].
  - unfold __del__, try_pass, cmd, exited in *. simpl.
    unfold bind, stdin_write.
    rewrite H. destruct (replies st); [reflexivity | discriminate].
Qed.

Lemma del_never_raises_witness :
  __del__ idle = Ok tt idle.
Proof.
  refine (proj2 (proj2 (proj2 (proj2 del_never_raises)) idle _ _));
    reflexivity.
Defined.

(** ** Inversion of sequenced computations *)

Lemma bind_ok {A B} (m : M A) (k : A -> M B) st b st' :
  bind m k st = Ok b st' ->
  exists a st1, m st = Ok a st1 /\ k a st1 = Ok b st'.
Proof.
  unfold bind. destruct (m st) as [a st1|e st1|st1]; try discriminate.
  intros H. exists a, st1. split; [reflexivity | exact H].
Qed.

Lemma ret_ok {A} (a b : A) st st' : ret a st = Ok b st' -> a = b /\ st = st'.
Proof. unfold ret. intros H. inversion H. split; reflexivity. Qed.

Lemma item_ok {A} (l : list A) i a st st' :
  item l i st = Ok a st' -> nth_error l i = Some a /\ st' = st.
Proof.
  unfold item. destruct (nth_error l i); [|discriminate].
  intros H. apply ret_ok in H. destruct H; subst. split; reflexivity.
Qed.

Lemma item_last_ok {A} (l : list A) a st st' :
  item_last l st = Ok a st' -> (exists r, rev l = a :: r) /\ st' = st.
Proof.
  unfold item_last. destruct (rev l) as [|x r]; [discriminate|].
  intros H. apply ret_ok in H. destruct H; subst. split; [eauto | reflexivity].
Qed.

Lemma int_ok s n st st' : int_ s st = Ok n st' -> int s = Some n /\ st' = st.
Proof.
  unfold int_. destruct (int s); [|discriminate].
  intros H. apply ret_ok in H. destruct H; subst. split; reflexivity.
Qed.

(** Splits a successful sequence into its steps. *)
Ltac inv_ok :=
  repeat match goal with
  | H : bind _ _ _ = Ok _ _ |- _ =>
      let a := fresh "a" in let s := fresh "s" in
      let H1 := fresh "H" in let H2 := fresh "H" in
      apply bind_ok in H; destruct H as (a & s & H1 & H2)
  | H : ret _ _ = Ok _ _ |- _ => apply ret_ok in H; destruct H; subst
  | H : item _ _ _ = Ok _ _ |- _ => apply item_ok in H; destruct H; subst
  | H : item_last _ _ = Ok _ _ |- _ =>
      apply item_last_ok in H; destruct H as [[? ?] ?]; subst
  | H : int_ _ _ = Ok _ _ |- _ => apply int_ok in H; destruct H; subst
  | H : raise _ _ = Ok _ _ |- _ => discriminate H
  end.

(** ** The display modes of ["query gxout"] *)

Lemma graphic_lookup qgxout i l k st :
  nth_error qgxout i = Some l ->
  last_token l = Some k ->
  GaEnv.graphic qgxout i st =
  match GaEnv.lookup GaEnv.graphicTypes k with
  | Some v => Ok v st
  | None => Raise (KeyError k) st
  end.
Proof.
  intros Hn Hk. unfold GaEnv.graphic, bind, item, item_last, last_token in *.
  rewrite Hn. cbv beta iota delta [ret].
  destruct (rev (split l)); [discriminate|].
  inversion Hk; subst. cbv beta iota.
  destruct (GaEnv.lookup GaEnv.graphicTypes k); reflexivity.
Qed.

(** C7 (as amended): the last words of lines 1 to 4 of the answer are
    looked up in the table graphicTypes; the first of them that is not a
    key makes the query fail with the KeyError of that word, and the key
    "0" stands for no mode.  The last word of line 5, the station-data
    mode, is not looked up: it is kept as it is, unless it is "6", which
    stands for no mode. *)
Theorem gxout_modes l0 l1 l2 l3 l4 l5 more k1 k2 k3 k4 k5 st :
  last_token l1 = Some k1 -> last_token l2 = Some k2 ->
  last_token l3 = Some k3 -> last_token l4 = Some k4 ->
  last_token l5 = Some k5 ->
  let table := GaEnv.lookup GaEnv.graphicTypes in
  GaEnv.parse_gxout (l0 :: l1 :: l2 :: l3 :: l4 :: l5 :: more) st =
  match table k1, table k2, table k3, table k4 with
  | None, _, _, _ => Raise (KeyError k1) st
  | Some _, None, _, _ => Raise (KeyError k2) st
  | Some _, Some _, None, _ => Raise (KeyError k3) st
  | Some _, Some _, Some _, None => Raise (KeyError k4) st
  | Some m1, Some m2, Some m3, Some m4 =>
      Ok (GaEnv.mkGx m1 m2 m3 m4
            (if seq_eqb k5 (lit "6") then None else Some k5)) st
  end /\
  table (lit "0") = Some None.
Proof.
  intros H1 H2 H3 H4 H5 table. split; [|reflexivity].
  unfold GaEnv.parse_gxout.
  unfold bind at 1.
  rewrite (@graphic_lookup (l0 :: l1 :: l2 :: l3 :: l4 :: l5 :: more) 1 l1 k1 st eq_refl H1). fold table.
  destruct (table k1) as [m1|]; [|reflexivity].
  unfold bind at 1.
  rewrite (@graphic_lookup (l0 :: l1 :: l2 :: l3 :: l4 :: l5 :: more) 2 l2 k2 st eq_refl H2). fold table.
  destruct (table k2) as [m2|]; [|reflexivity].
  unfold bind at 1.
  rewrite (@graphic_lookup (l0 :: l1 :: l2 :: l3 :: l4 :: l5 :: more) 3 l3 k3 st eq_refl H3). fold table.
  destruct (table k3) as [m3|]; [|reflexivity].
  unfold bind at 1.
  rewrite (@graphic_lookup (l0 :: l1 :: l2 :: l3 :: l4 :: l5 :: more) 4 l4 k4 st eq_refl H4). fold table.
  destruct (table k4) as [m4|]; [|reflexivity].
  unfold bind, item, item_last, last_token in *.
  cbv beta iota delta [nth_error ret].
  destruct (rev (split l5)); [discriminate|].
  inversion H5; subst. reflexivity.
Qed.

Lemma gxout_modes_witness :
  GaEnv.parse_gxout gxout_sample idle =
  Ok (GaEnv.mkGx (Some (lit "line")) (Some (lit "barb"))
                 (Some (lit "contour")) (Some (lit "vector"))
                 (Some (lit "Value"))) idle.
Proof.
  refine (proj1 (@gxout_modes _ _ _ _ _ _ [] (lit "Line") (lit "Barb")
                   (lit "Contour") (lit "Vector") (lit "Value") idle
                   _ _ _ _ _));
    reflexivity.
Defined.

(** C7 as stated fails on the fifth word: "Value" is not a key of the
    table, and the query succeeds with it as the station-data mode
    instead of failing. *)
Lemma station_data_not_looked_up :
  GaEnv.lookup GaEnv.graphicTypes (lit "Value") = None /\
  exists g, GaEnv.parse_gxout gxout_sample idle = Ok g idle /\
            GaEnv.stationData g = Some (lit "Value").
Proof.
  split; [reflexivity|]. eexists. split; reflexivity.
Qed.

(** ** The axis totals of ["query ctlinfo"] *)

Lemma total_put_same a n c : total a (put a n c) = Some n.
Proof. destruct a; reflexivity. Qed.

Lemma total_put_other a b n c : a <> b -> total a (put b n c) = total a c.
Proof. destruct a, b; intros H; try reflexivity; contradiction. Qed.

(** One round of the loop, by the axis the line counts for. *)
Lemma scan_ctl_step line rest c :
  GaEnv.scan_ctl (line :: rest) c =
  match recognized line with
  | Some a => n <- GaEnv.second_int line ;; GaEnv.scan_ctl rest (put a n c)
  | None => GaEnv.scan_ctl rest c
  end.
Proof.
  unfold recognized, mentions, GaEnv.has.
  cbn [find keywords fst snd GaEnv.scan_ctl].
  unfold GaEnv.has.
  repeat match goal with
         | |- context [in_str ?p line] => destruct (in_str p line)
         end; reflexivity.
Qed.

Lemma second_int_ok line n st st' :
  GaEnv.second_int line st = Ok n st' ->
  st' = st /\ exists tok, nth_error (split line) 1 = Some tok /\ int tok = Some n.
Proof.
  unfold GaEnv.second_int. intros H. inv_ok. split; [reflexivity|]. eauto.
Qed.

Lemma scan_ctl_spec qctl :
  forall c st c' st',
    GaEnv.scan_ctl qctl c st = Ok c' st' ->
    st' = st /\
    (forall a, (forall l, In l qctl -> recognized l <> Some a) ->
               total a c' = total a c) /\
    (forall a pre line post,
        qctl = pre ++ line :: post ->
        recognized line = Some a ->
        (forall l, In l post -> recognized l <> Some a) ->
        exists tok n, nth_error (split line) 1 = Some tok /\
                      int tok = Some n /\ total a c' = Some n).
Proof.
  induction qctl as [|line0 rest IH]; intros c st c' st' H.
  - simpl in H. apply ret_ok in H. destruct H; subst.
    split; [reflexivity|]. split; [reflexivity|].
    intros a pre line post E. destruct pre; discriminate.
  - rewrite scan_ctl_step in H.
    destruct (recognized line0) as [b|] eqn:R.
    + apply bind_ok in H. destruct H as (n & s1 & Hn & Hs).
      apply second_int_ok in Hn. destruct Hn as [-> (tok & Ht & Hi)].
      destruct (IH _ _ _ _ Hs) as (-> & Hkeep & Hset).
      split; [reflexivity|]. split.
      * intros a Ha. rewrite Hkeep.
        -- apply total_put_other. intros ->.
           apply (Ha line0); [left; reflexivity | exact R].
        -- intros l Hl. apply Ha. right. exact Hl.
      * intros a pre line post E Ra Hpost. destruct pre as [|l0 pre].
        -- simpl in E. inversion E; subst. rewrite R in Ra.
           inversion Ra; subst. exists tok, n.
           split; [exact Ht|]. split; [exact Hi|].
           rewrite (Hkeep a Hpost). apply total_put_same.
        -- simpl in E. inversion E; subst.
           apply (Hset a pre line post eq_refl Ra Hpost).
    + destruct (IH _ _ _ _ H) as (-> & Hkeep & Hset).
      split; [reflexivity|]. split.
      * intros a Ha. apply Hkeep. intros l Hl. apply Ha. right. exact Hl.
      * intros a pre line post E Ra Hpost. destruct pre as [|l0 pre].
        -- simpl in E. inversion E; subst. congruence.
        -- simpl in E. inversion E; subst.
           apply (Hset a pre line post eq_refl Ra Hpost).
Qed.

(** C8 (as amended): a line of the answer counts for an axis when it
    contains that axis's keyword all in lower case or all in upper case,
    followed by a blank ("xdef " or "XDEF ", and so on; the first of x, y,
    z, t, e that fits); the total length of an axis is the integer read
    from the second word of the last line that counts for it; and when no
    line counts for the ensemble axis, its total length is 1. *)
Theorem ctlinfo_totals qctl st c st' :
  GaEnv.parse_ctl qctl st = Ok c st' ->
  (forall a pre line post,
      qctl = pre ++ line :: post ->
      recognized line = Some a ->
      (forall l, In l post -> recognized l <> Some a) ->
      exists tok n, nth_error (split line) 1 = Some tok /\
                    int tok = Some n /\ total a c = Some n) /\
  ((forall l, In l qctl -> recognized l <> Some AE) -> GaEnv.Ne c = 1).
Proof.
  unfold GaEnv.parse_ctl. intros H.
  destruct (scan_ctl_spec _ _ _ H) as (_ & Hkeep & Hset).
  split; [exact Hset|].
  intros Hno. specialize (Hkeep AE Hno). simpl in Hkeep.
  inversion Hkeep. reflexivity.
Qed.

Lemma ctlinfo_totals_witness :
  let c := GaEnv.mkCtl None (Some 73) None None 1 in
  (forall a pre line post,
      ctl_sample = pre ++ line :: post ->
      recognized line = Some a ->
      (forall l, In l post -> recognized l <> Some a) ->
      exists tok n, nth_error (split line) 1 = Some tok /\
                    int tok = Some n /\ total a c = Some n) /\
  ((forall l, In l ctl_sample -> recognized l <> Some AE) -> GaEnv.Ne c = 1).
Proof.
  exact (@ctlinfo_totals ctl_sample idle _ idle eq_refl).
Defined.

(** C8 as stated fails on a keyword in mixed case: the line
    "Xdef 144 linear 0 2.5" counts for no axis, and the total length of
    the x axis is never set. *)
Lemma mixed_case_keyword_ignored :
  recognized (lit "Xdef 144 linear 0 2.5") = None /\
  exists c, GaEnv.parse_ctl ctl_sample idle = Ok c idle /\
            GaEnv.Nx c = None.
Proof.
  split; [reflexivity|]. eexists. split; reflexivity.
Qed.

(** ** The dimension environment of ["query dims"] *)

Section Dimensions.
Context {lib : PyLib}.

Lemma grid_index_ok fixed g gi st st' :
  GaEnv.grid_index fixed g st = Ok gi st' ->
  fixed = false ->
  exists lo hi, g = Pair (Finite lo) (Finite hi) /\
                gi = Pair (Qfloor lo) (Qceiling hi).
Proof.
  intros H ->. unfold GaEnv.grid_index in H.
  destruct g as [v|lo hi]; [discriminate|].
  apply bind_ok in H. destruct H as (a & s1 & Ha & H).
  apply bind_ok in H. destruct H as (b & s2 & Hb & H).
  apply ret_ok in H. destruct H as [<- _].
  destruct lo as [lo| |]; try discriminate.
  destruct hi as [hi| |]; try discriminate.
  apply ret_ok in Ha. destruct Ha as [<- _].
  apply ret_ok in Hb. destruct Hb as [<- _].
  exists lo, hi. split; reflexivity.
Qed.

Lemma axis_length_ok fixed gi n st st' :
  GaEnv.axis_length fixed gi st = Ok n st' ->
  if fixed then n = 1
  else exists lo hi, gi = Pair lo hi /\ n = hi - lo + 1.
Proof.
  unfold GaEnv.axis_length. destruct fixed.
  - intros H. apply ret_ok in H. destruct H. congruence.
  - destruct gi as [v|lo hi]; [discriminate|].
    intros H. apply ret_ok in H. destruct H. eauto.
Qed.

Lemma floor_le_ceiling lo hi : Qle lo hi -> Qfloor lo <= Qceiling hi.
Proof.
  intros H. rewrite Zle_Qle.
  apply Qle_trans with lo; [apply Qfloor_le|].
  apply Qle_trans with hi; [exact H | apply Qle_ceiling].
Qed.

Lemma axis_chain fixed g gi n s1 s2 s3 s4 :
  GaEnv.grid_index fixed g s1 = Ok gi s2 ->
  GaEnv.axis_length fixed gi s3 = Ok n s4 ->
  axis_derived fixed g gi n.
Proof.
  intros Hi Hn. apply axis_length_ok in Hn. unfold axis_derived.
  destruct fixed; [exact Hn|].
  destruct (grid_index_ok _ _ Hi eq_refl) as (lo & hi & -> & ->).
  destruct Hn as (lo' & hi' & E & ->). inversion E; subst.
  exists lo, hi. repeat split. apply floor_le_ceiling.
Qed.

Lemma parse_dims_axes qdims st d st' :
  GaEnv.parse_dims qdims st = Ok d st' ->
  axis_derived (GaEnv.xfixed d) (GaEnv.x d) (GaEnv.xi d) (GaEnv.nx d) /\
  axis_derived (GaEnv.yfixed d) (GaEnv.y d) (GaEnv.yi d) (GaEnv.ny d) /\
  axis_derived (GaEnv.zfixed d) (GaEnv.z d) (GaEnv.zi d) (GaEnv.nz d) /\
  axis_derived (GaEnv.tfixed d) (GaEnv.t d) (GaEnv.ti d) (GaEnv.nt d) /\
  axis_derived (GaEnv.efixed d) (GaEnv.e d) (GaEnv.ei d) (GaEnv.ne d).
Proof.
  unfold GaEnv.parse_dims. intros H. inv_ok. simpl.
  repeat split; eapply axis_chain; eassumption.
Qed.

Lemma init_dims query st env st' d :
  GaEnv.__init__ query st = Ok env st' ->
  GaEnv.dims env = Some d ->
  exists qdims s1 s2,
    GaEnv.run_query "query dims" st = Ok qdims s1 /\
    GaEnv.parse_dims qdims s1 = Ok d s2.
Proof.
  unfold GaEnv.__init__. intros H Hd.
  apply bind_ok in H. destruct H as (od & s1 & H1 & H).
  apply bind_ok in H. destruct H as (oc & s2 & H2 & H).
  apply bind_ok in H. destruct H as (og & s3 & H3 & H).
  apply ret_ok in H. destruct H as [<- _]. simpl in Hd. subst od.
  destruct (GaEnv.wanted query "dims").
  - apply bind_ok in H1. destruct H1 as (qdims & s4 & Hq & H1).
    apply bind_ok in H1. destruct H1 as (v & s5 & Hp & H1).
    apply ret_ok in H1. destruct H1 as [E Es]. inversion E; subst.
    exists qdims, s4, s1. split; assumption.
  - apply ret_ok in H1. destruct H1; discriminate.
Qed.

(** C5 (as amended): in every environment built from an answer to
    "query dims", a fixed axis has length 1 and a varying axis has
    length highIndex - lowIndex + 1, where lowIndex is the floor of the
    low grid coordinate and highIndex the ceiling of the high one; and
    lowIndex <= highIndex whenever the low grid coordinate is not above
    the high one. *)
Theorem axis_lengths query st env st' d :
  GaEnv.__init__ query st = Ok env st' ->
  GaEnv.dims env = Some d ->
  axis_derived (GaEnv.xfixed d) (GaEnv.x d) (GaEnv.xi d) (GaEnv.nx d) /\
  axis_derived (GaEnv.yfixed d) (GaEnv.y d) (GaEnv.yi d) (GaEnv.ny d) /\
  axis_derived (GaEnv.zfixed d) (GaEnv.z d) (GaEnv.zi d) (GaEnv.nz d) /\
  axis_derived (GaEnv.tfixed d) (GaEnv.t d) (GaEnv.ti d) (GaEnv.nt d) /\
  axis_derived (GaEnv.efixed d) (GaEnv.e d) (GaEnv.ei d) (GaEnv.ne d).
Proof.
  intros H Hd. destruct (init_dims _ _ H Hd) as (qdims & s1 & s2 & _ & Hp).
  exact (parse_dims_axes _ _ Hp).
Qed.
End Dimensions.

Lemma axis_lengths_witness :
  exists env st' d,
    GaEnv.__init__ (lit "dims") (scripted [dims_reply]) = Ok env st' /\
    GaEnv.dims env = Some d /\
    axis_derived (GaEnv.xfixed d) (GaEnv.x d) (GaEnv.xi d) (GaEnv.nx d) /\
    GaEnv.nx d = 2 /\ GaEnv.nz d = 1.
Proof.
  eexists. eexists. eexists.
  assert (H : GaEnv.__init__ (lit "dims") (scripted [dims_reply])
              = Ok _ _) by (vm_compute; reflexivity).
  split; [exact H|]. split; [reflexivity|].
  split; [exact (proj1 (axis_lengths _ _ H eq_refl))|].
  split; reflexivity.
Defined.

(** C5 as stated fails when the answer gives a range that runs
    downwards: for "X = 10 to 3" the window is (10, 3), with lowIndex
    above highIndex, and the length is -6. *)
Lemma reversed_range_not_ordered :
  exists d,
    GaEnv.parse_dims dims_reversed idle = Ok d idle /\
    GaEnv.xfixed d = false /\
    GaEnv.xi d = Pair 10 3 /\ GaEnv.nx d = -6 /\ ~ (10 <= 3).
Proof.
  eexists. split; [vm_compute; reflexivity|].
  split; [reflexivity|]. split; [reflexivity|]. split; [reflexivity|]. lia.
Qed.

(** ** Which exceptions a computation can raise *)

Lemma ro_ret P {A} (a : A) : raises_only P (ret a).
Proof. intros st e st' H. discriminate. Qed.

Lemma ro_hang P {A} : raises_only P (@hang A).
Proof. intros st e st' H. discriminate. Qed.

Lemma ro_raise (P : exn -> Prop) {A} e : P e -> raises_only P (@raise A e).
Proof. intros Pe st e' st' H. inversion H; subst. exact Pe. Qed.

Lemma ro_bind P {A B} (m : M A) (k : A -> M B) :
  raises_only P m -> (forall a, raises_only P (k a)) ->
  raises_only P (bind m k).
Proof.
  intros Hm Hk st e st' H. unfold bind in H.
  destruct (m st) as [a s1|e1 s1|s1] eqn:E.
  - exact (Hk a _ _ _ H).
  - inversion H; subst. exact (Hm _ _ _ E).
  - discriminate.
Qed.

Lemma ro_at P {A} (f : session -> M A) :
  (forall s, raises_only P (f s)) -> raises_only P (fun st => f st st).
Proof. intros H st. apply (H st). Qed.

Lemma ro_weaken (P Q : exn -> Prop) {A} (m : M A) :
  (forall e, P e -> Q e) -> raises_only P m -> raises_only Q m.
Proof. intros PQ H st e st' E. apply PQ. exact (H _ _ _ E). Qed.

Lemma ro_print s : raises_only not_pygrads (print s).
Proof. intros st e st' H. discriminate. Qed.

Lemma ro_stdin_write data : raises_only not_pygrads (stdin_write data).
Proof.
  intros st e st'. unfold stdin_write.
  destruct (stdin_closed st); [|destruct (replies st)];
    intros H; inversion H; exact I.
Qed.

Lemma ro_stdin_flush : raises_only not_pygrads stdin_flush.
Proof.
  intros st e st'. unfold stdin_flush.
  destruct (stdin_closed st); intros H; inversion H; exact I.
Qed.

Lemma ro_readline : raises_only not_pygrads stdout_readline.
Proof.
  intros st e st'. unfold stdout_readline.
  destruct (stdout_closed st); [intros H; inversion H; exact I|].
  destruct (existsb _ _ || exited st); [|discriminate].
  destruct (upto _ _). discriminate.
Qed.

Lemma ro_read n : raises_only not_pygrads (stdout_read n).
Proof.
  intros st e st'. unfold stdout_read.
  destruct (stdout_closed st); [intros H; inversion H; exact I|].
  destruct (stdout st); [destruct (exited st)|]; discriminate.
Qed.

Create HintDb ro.

#[local] Hint Resolve ro_ret ro_hang ro_print ro_stdin_write ro_stdin_flush
  ro_readline ro_read : ro.

#[local] Hint Extern 1 (raises_only not_pygrads (raise _)) =>
  apply ro_raise; exact I : ro.

Ltac ro_step :=
  match goal with
  | |- raises_only _ (bind _ _) => apply ro_bind; [|intros ?]
  | |- raises_only _ (let _ := _ in _) => cbv zeta
  | |- raises_only _ (if ?b then _ else _) => destruct b
  | |- raises_only _ (match ?x with _ => _ end) => destruct x
  | |- raises_only _ _ => solve [auto with ro]
  end.

Lemma ro_readline_decode enc : raises_only not_pygrads (readline_decode enc).
Proof. unfold readline_decode. repeat ro_step. Qed.

#[local] Hint Resolve ro_readline_decode : ro.

Lemma ro_seek_start fuel markstart enc out :
  raises_only not_pygrads (seek_start fuel markstart enc out).
Proof.
  revert out. induction fuel as [|fuel IH]; intros out; simpl;
    repeat ro_step; apply IH.
Qed.

Lemma ro_collect fuel markend vb enc out lines rc :
  raises_only not_pygrads (collect fuel markend vb enc out lines rc).
Proof.
  revert out lines rc. induction fuel as [|fuel IH]; intros out lines rc;
    simpl; repeat ro_step; apply IH.
Qed.

Lemma ro_move_loop fuel marker enc vb out :
  raises_only not_pygrads (move_loop fuel marker enc vb out).
Proof.
  revert out. induction fuel as [|fuel IH]; intros out; simpl;
    repeat ro_step; apply IH.
Qed.

Lemma ro_parse_output marker vb enc :
  raises_only not_pygrads (_parse_output marker vb enc).
Proof.
  unfold _parse_output. cbv zeta. apply ro_bind.
  - apply (ro_at (fun s => seek_start (rounds s) _ enc [])).
    intros s. apply ro_seek_start.
  - intros _. apply ro_bind; [apply ro_readline_decode|].
    intros out.
    apply (ro_at (fun s => collect (rounds s) _ vb enc out [] (-1))).
    intros s. apply ro_collect.
Qed.

Lemma ro_move_pointer marker enc vb :
  raises_only not_pygrads (move_pointer marker enc vb).
Proof.
  unfold move_pointer.
  apply (ro_at (fun s => move_loop (rounds s) marker enc vb [])).
  intros s. apply ro_move_loop.
Qed.

Lemma ro_cmd gacmd vb block enc :
  raises_only not_pygrads (cmd gacmd vb block enc).
Proof.
  unfold cmd.
  destruct (last_char gacmd); [|auto with ro]. cbv zeta.
  destruct (encode_utf8 _); [|auto with ro].
  apply ro_bind; [auto with ro|]. intros _.
  apply ro_bind; [auto with ro|]. intros _.
  destruct block; [|auto with ro].
  apply ro_bind.
  - destruct vb; [|apply ro_parse_output].
    apply (ro_at (fun s => _parse_output IPC (verbose s) enc)).
    intros s. apply ro_parse_output.
  - intros [outlines rc]. repeat ro_step.
Qed.

#[local] Hint Resolve ro_cmd ro_move_pointer ro_parse_output : ro.

Lemma ro_flush : raises_only not_pygrads flush.
Proof. unfold flush. repeat ro_step. Qed.

Lemma ro_read_chunks fuel handle :
  raises_only not_pygrads (read_chunks fuel handle).
Proof.
  revert handle. induction fuel as [|fuel IH]; intros handle; simpl.
  - auto with ro.
  - apply ro_bind; [auto with ro|]. intros chunk.
    destruct (in_bytes rc_mark chunk); [|apply IH].
    apply ro_bind; [apply ro_flush | intros _; auto with ro].
Qed.

Lemma problems_not_unsupported expr expr' : problems expr <> unsupported expr'.
Proof. unfold problems, unsupported. intros H. inversion H. Qed.

Lemma not_pygrads_not_unsupported expr e : not_pygrads e -> e <> unsupported expr.
Proof. intros H ->. exact H. Qed.

Lemma ro_reshape arr shp : raises_only not_pygrads (reshape arr shp).
Proof.
  intros st e st'. unfold reshape. destruct shp as [a b].
  repeat match goal with
         | |- context [if ?c then _ else _] => destruct c
         end;
    intros H; inversion H; exact I.
Qed.

Lemma ro_resolve nx ny payload expr :
  raises_only (fun e => e <> unsupported expr) (resolve nx ny payload expr).
Proof.
  intros st e st'. unfold resolve.
  destruct (fromstring payload) as [arr|].
  - destruct (existsb _ _).
    + destruct (index _ _) as [i|].
      * unfold bind, item. destruct (nth_error _ i); intros H; inversion H.
        discriminate.
      * intros H; inversion H. discriminate.
    + intros H; inversion H. apply problems_not_unsupported.
  - intros H; inversion H. apply problems_not_unsupported.
Qed.

(** ** Export needs exactly the x and y axes to vary *)

Lemma cmd_ok_log gacmd vb block enc st r st' :
  cmd gacmd vb block enc st = Ok r st' ->
  exists data, encode_utf8 (sent_form gacmd) = Some data /\
               stdin_log st' = stdin_log st ++ [data].
Proof.
  intros H.
  destruct (cmd_log gacmd vb block enc st) as [Hl|Hl]; rewrite H in Hl;
    simpl in Hl; [|exact Hl].
  exfalso. revert H.
  destruct gacmd as [|c0 g0] eqn:Eg; [discriminate|].
  rewrite <- Eg in *. assert (Hne : gacmd <> []) by (subst; discriminate).
  clear Eg c0 g0.
  destruct (encode_utf8 (sent_form gacmd)) as [data|] eqn:He.
  - destruct (stdin_closed st) eqn:Hc.
    + unfold cmd, sent_form, ends_with_newline in *.
      destruct (last_char gacmd) as [c|]; [|discriminate].
      destruct (c =? NL)%N; simpl in *; rewrite He;
        unfold bind, stdin_write; rewrite Hc; discriminate.
    + destruct (replies st) as [|reply later] eqn:Hr.
      * unfold cmd, sent_form, ends_with_newline in *.
        destruct (last_char gacmd) as [c|]; [|discriminate].
        destruct (c =? NL)%N; simpl in *; rewrite He;
          unfold bind, stdin_write; rewrite Hc, Hr; discriminate.
      * rewrite (@cmd_live gacmd vb block enc st data reply later
                   Hne He Hc Hr).
        intros H.
        assert (Q : quiet (if block
                           then await (sent_form gacmd) (vb && verbose st) enc
                           else ret ([], 0)))
          by (destruct block; [apply quiet_await | apply quiet_ret]).
        destruct (Q (after_write data reply later st)) as (_ & _ & L & _).
        rewrite H in L. simpl in L. rewrite L in Hl.
        apply (f_equal (@length bytes)) in Hl.
        rewrite length_app in Hl. simpl in Hl. lia.
  - unfold cmd, sent_form, ends_with_newline in *.
    destruct (last_char gacmd) as [c|]; [|discriminate].
    destruct (c =? NL)%N; simpl in *; rewrite He; discriminate.
Qed.

Lemma quiet_ok {A} (m : M A) st a st' :
  quiet m -> m st = Ok a st' -> stdin_log st' = stdin_log st.
Proof.
  intros Q H. destruct (Q st) as (_ & _ & L & _). rewrite H in L. exact L.
Qed.

Lemma quiet_item {A} (l : list A) i : quiet (item l i).
Proof. unfold item. destruct (nth_error l i); auto with quiet. Qed.

Lemma quiet_item_last {A} (l : list A) : quiet (item_last l).
Proof. unfold item_last. destruct (rev l); auto with quiet. Qed.

Lemma quiet_int_ s : quiet (int_ s).
Proof. unfold int_. destruct (int s); auto with quiet. Qed.

Lemma quiet_int_of f v : quiet (int_of f v).
Proof. destruct v; simpl; auto with quiet. Qed.

#[local] Hint Resolve quiet_item quiet_item_last quiet_int_ quiet_int_of
  : quiet.

Ltac quiet_steps :=
  repeat first [ progress cbv zeta | quiet_step ].

Section Export_properties.
Context {lib : PyLib}.

Lemma quiet_float_ s : quiet (GaEnv.float_ s).
Proof. unfold GaEnv.float_. destruct (float s); auto with quiet. Qed.

Lemma quiet_strptime_ s : quiet (GaEnv.strptime_ s).
Proof. unfold GaEnv.strptime_. destruct (strptime s); auto with quiet. Qed.

Hint Resolve quiet_float_ quiet_strptime_ : quiet.

Lemma quiet_world {A} (conv : str -> M A) fixed info :
  (forall s, quiet (conv s)) -> quiet (GaEnv.world conv fixed info).
Proof. intros H. unfold GaEnv.world. quiet_steps; apply H. Qed.

Lemma quiet_grid fixed info : quiet (GaEnv.grid fixed info).
Proof. unfold GaEnv.grid. quiet_steps. Qed.

Lemma quiet_grid_index fixed g : quiet (GaEnv.grid_index fixed g).
Proof. unfold GaEnv.grid_index. quiet_steps. Qed.

Lemma quiet_axis_length fixed gi : quiet (GaEnv.axis_length fixed gi).
Proof. unfold GaEnv.axis_length. quiet_steps. Qed.

Hint Resolve quiet_grid quiet_grid_index quiet_axis_length : quiet.

Lemma quiet_parse_dims qdims : quiet (GaEnv.parse_dims qdims).
Proof.
  unfold GaEnv.parse_dims.
  repeat first [ progress cbv zeta
               | apply quiet_bind; [|intros ?]
               | apply quiet_world; intros ?
               | solve [auto with quiet] ].
Qed.

Lemma quiet_scan_ctl qctl c : quiet (GaEnv.scan_ctl qctl c).
Proof.
  revert c. induction qctl as [|line rest IH]; intros c.
  - apply quiet_ret.
  - rewrite scan_ctl_step. destruct (recognized line); [|apply IH].
    apply quiet_bind; [|intros n; apply IH].
    unfold GaEnv.second_int. quiet_steps.
Qed.

Lemma quiet_parse_gxout qgxout : quiet (GaEnv.parse_gxout qgxout).
Proof. unfold GaEnv.parse_gxout, GaEnv.graphic. quiet_steps. Qed.

Lemma parse_dims_log qdims st d st' :
  GaEnv.parse_dims qdims st = Ok d st' -> stdin_log st' = stdin_log st.
Proof. apply quiet_ok, quiet_parse_dims. Qed.

Lemma parse_ctl_log qctl st c st' :
  GaEnv.parse_ctl qctl st = Ok c st' -> stdin_log st' = stdin_log st.
Proof. apply quiet_ok, quiet_scan_ctl. Qed.

Lemma parse_gxout_log qgxout st g st' :
  GaEnv.parse_gxout qgxout st = Ok g st' -> stdin_log st' = stdin_log st.
Proof. apply quiet_ok, quiet_parse_gxout. Qed.

Lemma run_query_log q st out st' :
  GaEnv.run_query q st = Ok out st' ->
  exists data, encode_utf8 (sent_form (lit q)) = Some data /\
               stdin_log st' = stdin_log st ++ [data].
Proof.
  unfold GaEnv.run_query. intros H.
  apply bind_ok in H. destruct H as ([o rc] & s1 & Hc & H).
  destruct (0 <? rc); [discriminate|].
  apply ret_ok in H. destruct H as [_ <-].
  exact (cmd_ok_log _ _ _ _ _ Hc).
Qed.

(** A full environment costs the three queries and nothing else. *)
Lemma env_log st e st1 :
  env (lit "all") st = Ok e st1 ->
  stdin_log st1 = stdin_log st ++ env_queries.
Proof.
  unfold env, GaEnv.__init__.
  change (GaEnv.wanted (lit "all") "dims") with true.
  change (GaEnv.wanted (lit "all") "ctlinfo") with true.
  change (GaEnv.wanted (lit "all") "gxout") with true.
  cbv iota. intros H. inv_ok.
  repeat match goal with
         | H : GaEnv.run_query _ _ = Ok _ _ |- _ =>
             apply run_query_log in H; destruct H as (? & ? & ?)
         end.
  repeat match goal with
         | H : GaEnv.parse_dims _ _ = Ok _ _ |- _ => apply parse_dims_log in H
         | H : GaEnv.parse_ctl _ _ = Ok _ _ |- _ => apply parse_ctl_log in H
         | H : GaEnv.parse_gxout _ _ = Ok _ _ |- _ =>
             apply parse_gxout_log in H
         end.
  repeat match goal with
         | H : encode_utf8 _ = Some _ |- _ =>
             vm_compute in H; inversion H; subst; clear H
         end.
  unfold env_queries.
  repeat match goal with
         | H : stdin_log _ = _ |- _ => rewrite H; clear H
         end.
  rewrite <- !app_assoc. reflexivity.
Qed.

Lemma parse_dims_rank qdims st d st' :
  GaEnv.parse_dims qdims st = Ok d st' -> GaEnv.rank d = varying_count d.
Proof.
  unfold GaEnv.parse_dims. intros H. inv_ok. unfold varying_count. simpl.
  repeat match goal with
         | |- context [GaEnv.fixed_in ?l] => destruct (GaEnv.fixed_in l)
         end; reflexivity.
Qed.

(** What [exp] does once the environment is known. *)
Lemma exp_after_env expr st e st1 d :
  env (lit "all") st = Ok e st1 ->
  GaEnv.dims e = Some d ->
  (GaEnv.xfixed d || GaEnv.yfixed d) || negb (GaEnv.rank d =? 2) = true ->
  exp expr st = Raise (unsupported expr) st1.
Proof.
  intros He Hd Hc. unfold exp. unfold bind at 1. rewrite He, Hd, Hc.
  reflexivity.
Qed.

Lemma exp_supported expr st e st1 d st' :
  env (lit "all") st = Ok e st1 ->
  GaEnv.dims e = Some d ->
  (GaEnv.xfixed d || GaEnv.yfixed d) || negb (GaEnv.rank d =? 2) = false ->
  exp expr st <> Raise (unsupported expr) st'.
Proof.
  intros He Hd Hc. unfold exp. unfold bind at 1. rewrite He, Hd, Hc.
  intros H. revert H.
  match goal with
  | |- ?m st1 = _ -> False =>
      assert (R : raises_only (fun x => x <> unsupported expr) m)
  end.
  { pose proof (@not_pygrads_not_unsupported expr) as W.
    repeat (apply ro_bind;
            [first [ apply (ro_weaken _ W); solve [auto with ro]
                   | apply ro_resolve
                   | idtac ]
            | intros ? ]).
    - apply (ro_weaken _ W).
      apply (ro_at (fun s => read_chunks (rounds s) [])).
      intros s. apply ro_read_chunks.
    - destruct a4 as [arr [nx ny]].
      apply ro_bind; [apply (ro_weaken _ W); auto with ro | intros _].
      apply ro_bind; [| intros _; apply (ro_weaken _ W); apply ro_reshape].
      apply (ro_weaken _ W).
      destruct (GaEnv.gxout e) as [g|]; [|auto with ro].
      destruct (GaEnv.gx2Dscalar g); auto with ro. }
  intros H. exact (R _ _ _ H eq_refl).
Qed.

(** C4: the rank of an environment is the number of its axes, among
    x, y, z, t, e, that are not fixed; once the environment is read,
    [exp] raises the "Unsupported environment" PygradsError exactly when
    x is fixed, or y is fixed, or the rank is not 2; and it does so
    right after the three environment queries, before any further
    command is written to GrADS. *)
Theorem exp_unsupported expr st e st1 d :
  env (lit "all") st = Ok e st1 ->
  GaEnv.dims e = Some d ->
  GaEnv.rank d = varying_count d /\
  ((GaEnv.xfixed d = true \/ GaEnv.yfixed d = true \/ GaEnv.rank d <> 2)
   <-> exists st', exp expr st = Raise (unsupported expr) st') /\
  (forall st', exp expr st = Raise (unsupported expr) st' ->
     st' = st1 /\ stdin_log st' = stdin_log st ++ env_queries).
Proof.
  intros He Hd.
  assert (Hcond :
    (GaEnv.xfixed d || GaEnv.yfixed d) || negb (GaEnv.rank d =? 2) = true
    <-> (GaEnv.xfixed d = true \/ GaEnv.yfixed d = true
         \/ GaEnv.rank d <> 2)).
  { rewrite !orb_true_iff, negb_true_iff, Z.eqb_neq. tauto. }
  split; [|split].
  - unfold env in He.
    destruct (init_dims _ _ He Hd) as (qdims & s1 & s2 & _ & Hp).
    exact (parse_dims_rank _ _ Hp).
  - split.
    + intros H. exists st1.
      eapply exp_after_env; [exact He | exact Hd | apply Hcond; exact H].
    + intros [st' H]. apply Hcond.
      destruct ((GaEnv.xfixed d || GaEnv.yfixed d)
                || negb (GaEnv.rank d =? 2)) eqn:C; [reflexivity|].
      exfalso. eapply exp_supported; [exact He | exact Hd | exact C | exact H].
  - intros st' H.
    destruct ((GaEnv.xfixed d || GaEnv.yfixed d)
              || negb (GaEnv.rank d =? 2)) eqn:C.
    + erewrite exp_after_env in H; [|exact He | exact Hd | exact C].
      inversion H; subst.
      split; [reflexivity | eapply env_log; exact He].
    + exfalso. eapply exp_supported; [exact He | exact Hd | exact C | exact H].
Qed.
End Export_properties.

Lemma exp_unsupported_witness :
  exists st',
    exp (lit "ts") (scripted [dims_reply_zt; ctlinfo_reply; gxout_reply])
    = Raise (unsupported (lit "ts")) st' /\
    stdin_log st' = env_queries.
Proof.
  assert (H : env (lit "all")
                  (scripted [dims_reply_zt; ctlinfo_reply; gxout_reply])
              = Ok _ _) by (vm_compute; reflexivity).
  destruct (@exp_unsupported _ (lit "ts") _ _ _ _ H eq_refl) as (_ & Hiff & Hlog).
  destruct (proj1 Hiff (or_introl eq_refl)) as [st' E].
  exists st'. split; [exact E | exact (proj2 (Hlog _ E))].
Defined.

(** ** Reading lines *)

Lemma is_newline b : Byte.eqb bNL b = true <-> b = bNL.
Proof.
  split.
  - intros H. symmetry. apply Byte.byte_dec_bl. exact H.
  - intros ->. reflexivity.
Qed.

Lemma upto_line b r :
  ~ In bNL b ->
  upto (Byte.eqb bNL) (b ++ bNL :: r) = (b ++ [bNL], r).
Proof.
  induction b as [|c b IH]; intros H; simpl.
  - reflexivity.
  - destruct (Byte.eqb bNL c) eqn:E.
    + apply is_newline in E. subst. exfalso. apply H. left. reflexivity.
    + rewrite IH; [reflexivity|]. intros Hin. apply H. right. exact Hin.
Qed.

Lemma readline_line raw r st :
  is_line raw ->
  stdout_closed st = false ->
  stdout st = raw ++ r ->
  stdout_readline st = Ok raw (set_stdout r st).
Proof.
  intros (b & -> & Hb) Hc Hs. unfold stdout_readline. rewrite Hc, Hs.
  rewrite <- app_assoc. simpl.
  assert (E : existsb (Byte.eqb bNL) (b ++ bNL :: r) = true).
  { apply existsb_exists. exists bNL. split; [|reflexivity].
    apply in_or_app. right. left. reflexivity. }
  rewrite E. simpl. rewrite (@upto_line b r Hb). reflexivity.
Qed.

Lemma readline_decode_line enc raw text r st :
  wire_line enc raw text ->
  stdout_closed st = false ->
  stdout st = raw ++ r ->
  readline_decode enc st = Ok text (set_stdout r st).
Proof.
  intros [Hl Hd] Hc Hs. unfold readline_decode, bind.
  rewrite (@readline_line raw r st Hl Hc Hs), Hd. reflexivity.
Qed.

Lemma option_map_cons {A} (x : A) o t :
  option_map (cons x) o = Some t -> t <> [].
Proof. destruct o; simpl; intros H; inversion H; discriminate. Qed.

Lemma decode_utf8_nonempty b bs t :
  decode_utf8 (b :: bs) = Some t -> t <> [].
Proof.
  cbn [decode_utf8]. cbv zeta.
  destruct (Byte.to_N b <? 128)%N; [apply option_map_cons|].
  destruct (between 194 223 b).
  { destruct bs as [|b1 r1]; [discriminate|].
    destruct (between 128 191 b1); [apply option_map_cons | discriminate]. }
  destruct (between 224 239 b).
  { destruct bs as [|b1 [|b2 r2]]; try discriminate.
    destruct (_ && _); [apply option_map_cons | discriminate]. }
  destruct (between 240 244 b); [|discriminate].
  destruct bs as [|b1 [|b2 [|b3 r3]]]; try discriminate.
  destruct (_ && _); [apply option_map_cons | discriminate].
Qed.

Lemma decode_nonempty enc raw t :
  decode enc raw = Some t -> raw <> [] -> t <> [].
Proof.
  destruct raw as [|b bs]; [contradiction|]. intros H _.
  destruct enc; simpl in H.
  - exact (@decode_utf8_nonempty b bs t H).
  - inversion H. discriminate.
Qed.

Lemma line_nonempty raw : is_line raw -> raw <> [].
Proof. intros (b & -> & _). destruct b; discriminate. Qed.

Lemma wire_line_text enc raw text :
  wire_line enc raw text -> (length text =? 0)%nat = false.
Proof.
  intros [Hl Hd]. pose proof (@decode_nonempty enc raw text Hd (@line_nonempty raw Hl)) as H.
  destruct text; [contradiction | reflexivity].
Qed.

(** ** The frame reader on a well-formed frame *)

Lemma wire_line_pos enc raw text :
  wire_line enc raw text -> (0 <? length text)%nat = true.
Proof.
  intros H. pose proof (@wire_line_text enc raw text H) as E.
  destruct text; [discriminate | reflexivity].
Qed.

Lemma consumed_nothing rest st : consumed rest [] st = set_stdout rest st.
Proof. unfold consumed, set_stdout. rewrite app_nil_r. reflexivity. Qed.

Lemma seek_start_frame enc markstart opening otext rest :
  wire_line enc opening otext ->
  in_str markstart otext = true ->
  forall pre fuel out st,
    Forall (noise enc markstart) pre ->
    in_str markstart out = false ->
    (length pre + 2 <= fuel)%nat ->
    stdout_closed st = false ->
    stdout st = concat pre ++ opening ++ rest ->
    seek_start fuel markstart enc out st = Ok tt (set_stdout rest st).
Proof.
  intros Hop Hin. induction pre as [|raw pre IH];
    intros fuel out st Hpre Hout Hf Hc Hs.
  - destruct fuel as [|[|fuel]]; [simpl in Hf; lia | simpl in Hf; lia|].
    simpl in Hs. cbn [seek_start]. rewrite Hout. unfold bind.
    rewrite (@readline_decode_line enc opening otext rest st Hop Hc Hs).
    rewrite (@wire_line_text enc opening otext Hop), Hin. reflexivity.
  - destruct fuel as [|fuel]; [simpl in Hf; lia|].
    inversion Hpre as [|? ? (text & Hw & Hno) Hpre']; subst.
    simpl in Hs. rewrite <- app_assoc in Hs.
    cbn [seek_start]. rewrite Hout. unfold bind.
    rewrite (@readline_decode_line enc raw text _ st Hw Hc Hs).
    rewrite (@wire_line_text enc raw text Hw).
    rewrite (IH fuel text (set_stdout (concat pre ++ opening ++ rest) st)
                Hpre' Hno); try reflexivity; try exact Hc.
    simpl in Hf. lia.
Qed.

Lemma collect_frame enc vb markend closing ctext rest :
  wire_line enc closing ctext ->
  in_str markend ctext = true ->
  forall body fuel lines rc st,
    Forall (well_formed enc markend) body ->
    (length body < fuel)%nat ->
    stdout_closed st = false ->
    stdout st = concat (List.map raw_of body) ++ closing ++ rest ->
    (out <- readline_decode enc ;;
     collect fuel markend vb enc out lines rc) st
    = Ok (lines ++ texts body, code rc body)
         (consumed rest (if vb then texts body else []) st).
Proof.
  intros Hcl Hin. induction body as [|e body IH];
    intros fuel lines rc st Hwf Hf Hc Hs.
  - destruct fuel as [|fuel]; [simpl in Hf; lia|].
    simpl in Hs. unfold bind.
    rewrite (@readline_decode_line enc closing ctext rest st Hcl Hc Hs).
    cbn [collect]. rewrite Hin. simpl texts. rewrite app_nil_r.
    destruct vb; rewrite consumed_nothing; reflexivity.
  - destruct fuel as [|fuel]; [simpl in Hf; lia|].
    assert (Hf' : (length body < fuel)%nat) by (simpl in Hf; lia).
    inversion Hwf as [|? ? He Hwf']; subst.
    simpl in Hs. rewrite <- app_assoc in Hs.
    destruct e as [raw line|raw text n].
    + destruct He as (Hw & Hno & Hrc). simpl in Hs.
      unfold bind at 1.
      rewrite (@readline_decode_line enc raw (line ++ [NL]) _ st Hw Hc Hs).
      cbn [collect]. rewrite Hno, (@wire_line_pos enc raw _ Hw), Hrc.
      rewrite removelast_last.
      unfold bind at 1. destruct vb.
      * unfold print at 1. cbv beta iota.
        rewrite IH; [|exact Hwf' | exact Hf' | exact Hc | reflexivity].
        simpl texts. simpl code. rewrite <- app_assoc. simpl.
        unfold consumed. simpl. rewrite <- app_assoc. reflexivity.
      * unfold ret at 1. cbv beta iota.
        rewrite IH; [|exact Hwf' | exact Hf' | exact Hc | reflexivity].
        simpl texts. simpl code. rewrite <- app_assoc. reflexivity.
    + destruct He as (Hw & Hno & Hrc & tok & Ht & Hi). simpl in Hs.
      unfold bind at 1.
      rewrite (@readline_decode_line enc raw text _ st Hw Hc Hs).
      cbn [collect]. rewrite Hno, (@wire_line_pos enc raw _ Hw), Hrc, Ht, Hi.
      rewrite IH; [|exact Hwf' | exact Hf' | exact Hc | reflexivity].
      reflexivity.
Qed.

(** ** The loops do not depend on their fuel

    Once a loop returns or raises with some fuel, it does the same with
    any larger fuel. *)

Lemma bind_more {A B} (m : M A) (k k' : A -> M B) st o :
  (forall a s, k a s = o -> k' a s = o) ->
  bind m k st = o -> bind m k' st = o.
Proof.
  intros H. unfold bind. destruct (m st) as [a s|e s|s]; auto.
Qed.

Lemma seek_start_more f :
  forall f' markstart enc out st o,
    (f <= f')%nat -> returns o ->
    seek_start f markstart enc out st = o ->
    seek_start f' markstart enc out st = o.
Proof.
  induction f as [|f IH]; intros f' markstart enc out st o Hf Ho H.
  - simpl in H. subst o. exfalso. exact (Ho st eq_refl).
  - destruct f' as [|f']; [lia|].
    cbn [collect seek_start move_loop read_chunks] in *.
    destruct (in_str markstart out); [exact H|].
    revert H. apply bind_more. intros out' s.
    destruct (length out' =? 0)%nat; [tauto|].
    apply IH; [lia | exact Ho].
Qed.

Lemma collect_more f :
  forall f' markend vb enc out lines rc st o,
    (f <= f')%nat -> returns o ->
    collect f markend vb enc out lines rc st = o ->
    collect f' markend vb enc out lines rc st = o.
Proof.
  induction f as [|f IH]; intros f' markend vb enc out lines rc st o Hf Ho H.
  - simpl in H. subst o. exfalso. exact (Ho st eq_refl).
  - destruct f' as [|f']; [lia|].
    cbn [collect seek_start move_loop read_chunks] in *.
    destruct (in_str markend out); [exact H|].
    destruct (0 <? length out)%nat; [|exact H].
    destruct (in_str (lit "<RC>") out).
    + destruct (nth_error (split out) 1) as [tok|]; [|exact H].
      destruct (int tok) as [n|]; [|exact H].
      revert H. apply bind_more. intros out' s.
      apply IH; [lia | exact Ho].
    + revert H. apply bind_more. intros _ s.
      apply bind_more. intros out' s'.
      apply IH; [lia | exact Ho].
Qed.

Lemma move_loop_more f :
  forall f' marker enc vb out st o,
    (f <= f')%nat -> returns o ->
    move_loop f marker enc vb out st = o ->
    move_loop f' marker enc vb out st = o.
Proof.
  induction f as [|f IH]; intros f' marker enc vb out st o Hf Ho H.
  - simpl in H. subst o. exfalso. exact (Ho st eq_refl).
  - destruct f' as [|f']; [lia|].
    cbn [collect seek_start move_loop read_chunks] in *.
    destruct (in_str marker out); [exact H|].
    revert H. apply bind_more. intros out' s.
    apply bind_more. intros _ s'.
    destruct (length out' =? 0)%nat; [tauto|].
    apply IH; [lia | exact Ho].
Qed.

Lemma read_chunks_more f :
  forall f' handle st o,
    (f <= f')%nat -> returns o ->
    read_chunks f handle st = o ->
    read_chunks f' handle st = o.
Proof.
  induction f as [|f IH]; intros f' handle st o Hf Ho H.
  - simpl in H. subst o. exfalso. exact (Ho st eq_refl).
  - destruct f' as [|f']; [lia|].
    cbn [collect seek_start move_loop read_chunks] in *.
    revert H. apply bind_more. intros chunk s.
    destruct (in_bytes rc_mark chunk); [tauto|].
    apply IH; [lia | exact Ho].
Qed.

Lemma concat_length_ge {A} (l : list (list A)) :
  Forall (fun r => r <> []) l -> (length l <= length (concat l))%nat.
Proof.
  induction 1 as [|r l Hr Hl IH]; simpl; [lia|].
  rewrite length_app. destruct r; [contradiction | simpl; lia].
Qed.

Lemma noise_nonempty enc markstart pre :
  Forall (noise enc markstart) pre -> Forall (fun r => r <> []) pre.
Proof.
  apply Forall_impl. intros raw (text & [Hl _] & _).
  exact (@line_nonempty raw Hl).
Qed.

Lemma body_nonempty enc markend body :
  Forall (well_formed enc markend) body ->
  Forall (fun r => r <> []) (List.map raw_of body).
Proof.
  intros H. apply Forall_map. revert H. apply Forall_impl.
  intros [raw line|raw text n]; simpl.
  - intros ([Hl _] & _). exact (@line_nonempty raw Hl).
  - intros ([Hl _] & _). exact (@line_nonempty raw Hl).
Qed.

(** [_parse_output] run on the bytes of a frame. *)
Lemma parse_frame_run marker vb enc pre opening body closing rest st :
  frame enc marker pre opening body closing ->
  stdout_closed st = false ->
  stdout st = frame_bytes pre opening body closing ++ rest ->
  _parse_output marker vb enc st =
  Ok (texts body, code (-1) body)
     (consumed rest (if vb then texts body else []) st).
Proof.
  intros (Hpre & (otext & Hop & Hin) & Hbody & (ctext & Hcl & Hcin)) Hc Hs.
  unfold frame_bytes in Hs. rewrite <- !app_assoc in Hs.
  unfold _parse_output. cbv zeta. fold (open_tag marker) (close_tag marker).
  unfold bind at 1.
  assert (Hlen : (length pre + 2 <= rounds st)%nat).
  { unfold rounds. rewrite Hs, length_app.
    pose proof (concat_length_ge (noise_nonempty Hpre)).
    unfold bytes in *. lia. }
  rewrite (@seek_start_frame enc (open_tag marker) opening otext
             (concat (List.map raw_of body) ++ closing ++ rest)
             Hop Hin pre (rounds st) [] st Hpre eq_refl Hlen Hc Hs).
  set (st1 := set_stdout (concat (List.map raw_of body) ++ closing ++ rest) st).
  pose proof (@collect_frame enc vb (close_tag marker) closing ctext rest
                Hcl Hcin body (S (length body)) [] (-1) st1 Hbody
                (Nat.lt_succ_diag_r _) Hc eq_refl) as Hcol.
  apply bind_ok in Hcol. destruct Hcol as (out & s2 & Hread & Hcol).
  unfold bind. rewrite Hread.
  assert (Hfuel : (S (length body) <= rounds s2)%nat).
  { destruct body as [|e body'].
    - unfold rounds. simpl. lia.
    - inversion Hbody as [|? ? He Hbody']; subst.
      assert (Hw : exists text, wire_line enc (raw_of e) text).
      { destruct e; simpl in *; destruct He as [Hw _]; eauto. }
      destruct Hw as [text Hw].
      assert (Hs1 : stdout st1 =
                    raw_of e ++ concat (List.map raw_of body') ++ closing ++ rest).
      { unfold st1. simpl. rewrite <- app_assoc. reflexivity. }
      rewrite (@readline_decode_line enc (raw_of e) text _ st1 Hw Hc Hs1)
        in Hread.
      inversion Hread; subst. unfold rounds. simpl.
      rewrite length_app.
      pose proof (concat_length_ge (body_nonempty Hbody')) as L.
      rewrite length_map in L. unfold bytes in *. lia. }
  apply (@collect_more (S (length body)));
    [exact Hfuel | intros s H; discriminate H | exact Hcol].
Qed.

(** The frame reader on a well-formed frame: the lines before the
    opening tag are dropped, the lines of the body are returned in order
    without their newline, the return code is that of the last <RC> line
    (-1 when there is none), and the pipe is left right after the line
    with the closing tag. *)
Theorem parse_output_frame marker vb enc pre opening body closing rest st :
  frame enc marker pre opening body closing ->
  stdout_closed st = false ->
  stdout st = frame_bytes pre opening body closing ++ rest ->
  _parse_output marker vb enc st =
  Ok (texts body, code (-1) body)
     (consumed rest (if vb then texts body else []) st).
Proof.
  intros Hf Hc Hs.
  exact (@parse_frame_run marker vb enc pre opening body closing rest st
           Hf Hc Hs).
Qed.

(** Solves [is_line raw] for a byte string given in full. *)
Ltac line_tac :=
  match goal with
  | |- is_line ?raw =>
      exists (removelast raw); split;
      [ reflexivity
      | let H := fresh in
        intros H; cbv in H;
        repeat (destruct H as [H|H]; [discriminate H|]); exact H ]
  end.

Ltac wire_tac := split; [line_tac | reflexivity].

Lemma parse_output_frame_witness :
  let st := mkSession true false [] [] [] false [] in
  let wire := frame_bytes sample_pre (blit "<IPC>" ++ [bNL]) sample_body
                          (blit "</IPC>" ++ [bNL]) in
  _parse_output IPC false Utf8 (set_stdout (wire ++ blit "more") st) =
  Ok ([lit "Config: v2.1.a3"; lit "Grid Analysis and Display System"], 0)
     (consumed (blit "more") [] (set_stdout (wire ++ blit "more") st)).
Proof.
  intros st wire.
  refine (@parse_output_frame IPC false Utf8 sample_pre (blit "<IPC>" ++ [bNL])
            sample_body (blit "</IPC>" ++ [bNL]) (blit "more")
            (set_stdout (wire ++ blit "more") st) _ eq_refl eq_refl).
  split; [|split; [|split]].
  - apply Forall_cons; [|apply Forall_nil].
    exists (lit "Landscape mode? ('n' for portrait):" ++ [NL]).
    split; [wire_tac | reflexivity].
  - exists (lit "<IPC>" ++ [NL]). split; [wire_tac | reflexivity].
  - apply Forall_cons; [|apply Forall_cons; [|apply Forall_cons;
                                               [|apply Forall_nil]]].
    + split; [wire_tac | split; reflexivity].
    + split; [wire_tac | split; reflexivity].
    + split; [wire_tac | split; [reflexivity | split; [reflexivity|]]].
      exists (lit "0"). split; reflexivity.
  - exists (lit "</IPC>" ++ [NL]). split; [wire_tac | reflexivity].
Defined.

(** ** What shape resolution guarantees *)

Lemma fromstring_length arr :
  forall buf, fromstring buf = Some arr ->
              length buf = (4 * length arr)%nat.
Proof.
  induction arr as [|w arr IH]; intros buf H.
  - destruct buf as [|a [|b [|c [|d rest]]]]; try discriminate; [reflexivity|].
    simpl in H. destruct (fromstring rest); discriminate.
  - destruct buf as [|a [|b [|c [|d rest]]]]; try discriminate.
    simpl in H. destruct (fromstring rest) as [arr'|] eqn:E; [|discriminate].
    inversion H; subst. simpl. rewrite (IH rest E). lia.
Qed.

(** Whatever shape [exp] settles on holds exactly the elements of the
    payload, and differs from the nominal shape in one axis only, by at
    most two. *)
Theorem resolve_shape_sound env_nx env_ny payload expr st arr nx ny st' :
  resolve env_nx env_ny payload expr st = Ok (arr, (nx, ny)) st' ->
  st' = st /\
  length payload = (4 * length arr)%nat /\
  nx * ny = Z.of_nat (length arr) /\
  ((ny = env_ny /\ -2 <= nx - env_nx <= 2) \/
   (nx = env_nx /\ -2 <= ny - env_ny <= 2)).
Proof.
  intros H. destruct (fromstring payload) as [arr'|] eqn:Ef.
  - rewrite (@resolve_first_match_gen env_nx env_ny payload expr st arr' Ef)
      in H.
    destruct (first_match _ _) as [shp|] eqn:Em; [|discriminate].
    inversion H; subst. split; [reflexivity|].
    split; [exact (fromstring_length _ Ef)|].
    unfold first_match in Em.
    destruct (find _ _) as [[shp n]|] eqn:Efind; [|discriminate].
    simpl in Em. inversion Em; subst.
    apply find_some in Efind. destruct Efind as [Hin Hn].
    simpl in Hn. apply Z.eqb_eq in Hn.
    unfold possible_sizes in Hin. simpl in Hin.
    repeat (destruct Hin as [Hin|Hin];
            [inversion Hin; subst; split;
             [first [assumption | symmetry; assumption | lia] | lia]|]).
    contradiction.
  - unfold resolve in H. rewrite Ef in H. discriminate.
Qed.

Lemma resolve_shape_sound_witness :
  exists arr,
    resolve 4 2 (repeat x00 48) [] idle = Ok (arr, (6, 2)) idle /\
    6 * 2 = Z.of_nat (length arr).
Proof.
  exists (repeat (x00, x00, x00, x00) 12).
  assert (H : resolve 4 2 (repeat x00 48) [] idle
              = Ok (repeat (x00, x00, x00, x00) 12, (6, 2)) idle)
    by reflexivity.
  split; [exact H|].
  exact (proj1 (proj2 (proj2 (resolve_shape_sound _ _ _ _ _ H)))).
Defined.

(** A payload whose length is not a multiple of four cannot be read as
    32-bit floats: the export fails with the "Problems occurred"
    PygradsError. *)
Theorem resolve_bad_length env_nx env_ny payload expr st :
  (length payload mod 4 <> 0)%nat ->
  resolve env_nx env_ny payload expr st = Raise (problems expr) st.
Proof.
  intros H. unfold resolve.
  destruct (fromstring payload) as [arr|] eqn:Ef; [|reflexivity].
  exfalso. apply H. rewrite (fromstring_length _ Ef).
  rewrite Nat.mul_comm. apply Nat.Div0.mod_mul.
Qed.

Lemma resolve_bad_length_witness :
  resolve 2 2 (repeat x00 15) (lit "ts") idle = Raise (problems (lit "ts")) idle.
Proof.
  apply resolve_bad_length. discriminate.
Defined.

(** ** Commands answered by a well-formed frame *)

(** [cmd] either fails before anything is written, leaving the session
    as it was, or writes the command to a live process and goes on from
    there. *)
Lemma cmd_cases gacmd vb block enc st :
  (exists e, cmd gacmd vb block enc st = Raise e st) \/
  (exists data reply later,
      gacmd <> [] /\ encode_utf8 (sent_form gacmd) = Some data /\
      stdin_closed st = false /\ replies st = reply :: later /\
      cmd gacmd vb block enc st =
      (if block then await (sent_form gacmd) (vb && verbose st) enc
       else ret ([], 0)) (after_write data reply later st)).
Proof.
  destruct gacmd as [|c0 g0] eqn:Eg.
  { left. exists IndexError. reflexivity. }
  rewrite <- Eg. assert (Hne : gacmd <> []) by (subst; discriminate).
  clear Eg c0 g0.
  destruct (encode_utf8 (sent_form gacmd)) as [data|] eqn:He.
  - destruct (stdin_closed st) eqn:Hc.
    + left. exists ValueError. unfold cmd, sent_form, ends_with_newline in *.
      destruct (last_char gacmd) as [c|] eqn:El;
        [|apply last_char_none in El; contradiction].
      destruct (c =? NL)%N; simpl in *; rewrite He;
        unfold bind, stdin_write; rewrite Hc; reflexivity.
    + destruct (replies st) as [|reply later] eqn:Hr.
      * left. exists BrokenPipeError.
        unfold cmd, sent_form, ends_with_newline in *.
        destruct (last_char gacmd) as [c|] eqn:El;
          [|apply last_char_none in El; contradiction].
        destruct (c =? NL)%N; simpl in *; rewrite He;
          unfold bind, stdin_write; rewrite Hc, Hr; reflexivity.
      * right. exists data, reply, later.
        repeat (split; [first [assumption | reflexivity]|]).
        exact (@cmd_live gacmd vb block enc st data reply later Hne He Hc Hr).
  - left. exists UnicodeEncodeError.
    unfold cmd, sent_form, ends_with_newline in *.
    destruct (last_char gacmd) as [c|] eqn:El;
      [|apply last_char_none in El; contradiction].
    destruct (c =? NL)%N; simpl in *; rewrite He; reflexivity.
Qed.

(** A blocking [cmd] answered by a frame. *)
Lemma cmd_frame_run gacmd vb enc st data pre opening body closing later :
  gacmd <> [] ->
  encode_utf8 (sent_form gacmd) = Some data ->
  stdin_closed st = false ->
  stdout_closed st = false ->
  stdout st = [] ->
  replies st = frame_bytes pre opening body closing :: later ->
  frame enc IPC pre opening body closing ->
  in_str (lit "Syntax Error") (join [NL] (texts body)) = false ->
  cmd gacmd vb true enc st =
  Ok (texts body, code (-1) body)
     (consumed [] (if vb && verbose st then texts body else [])
        (after_write data (frame_bytes pre opening body closing) later st)).
Proof.
  intros Hne He Hc Hoc Hs Hr Hf Hse.
  rewrite (@cmd_live gacmd vb true enc st data _ later Hne He Hc Hr).
  unfold await, bind.
  rewrite (@parse_frame_run IPC (vb && verbose st) enc pre opening body
             closing []
             (after_write data (frame_bytes pre opening body closing) later st)
             Hf Hoc).
  - rewrite Hse. reflexivity.
  - simpl. rewrite Hs, app_nil_r. reflexivity.
Qed.

(** A blocking [cmd] whose command GrADS answers with a well-formed
    frame free of "Syntax Error" returns the lines and the return code of
    that frame; the command went out once, with its newline, and the pipe
    is drained. *)
Theorem cmd_returns_frame gacmd vb enc st data pre opening body closing later :
  gacmd <> [] ->
  encode_utf8 (sent_form gacmd) = Some data ->
  stdin_closed st = false ->
  stdout_closed st = false ->
  stdout st = [] ->
  replies st = frame_bytes pre opening body closing :: later ->
  frame enc IPC pre opening body closing ->
  in_str (lit "Syntax Error") (join [NL] (texts body)) = false ->
  cmd gacmd vb true enc st =
  Ok (texts body, code (-1) body)
     (consumed [] (if vb && verbose st then texts body else [])
        (after_write data (frame_bytes pre opening body closing) later st)).
Proof.
  intros Hne He Hc Hoc Hs Hr Hf Hse.
  exact (@cmd_frame_run gacmd vb enc st data pre opening body closing later
           Hne He Hc Hoc Hs Hr Hf Hse).
Qed.

Lemma sample_frame : frame Utf8 IPC sample_pre (blit "<IPC>" ++ [bNL])
                           sample_body (blit "</IPC>" ++ [bNL]).
Proof.
  split; [|split; [|split]].
  - apply Forall_cons; [|apply Forall_nil].
    exists (lit "Landscape mode? ('n' for portrait):" ++ [NL]).
    split; [wire_tac | reflexivity].
  - exists (lit "<IPC>" ++ [NL]). split; [wire_tac | reflexivity].
  - apply Forall_cons; [|apply Forall_cons; [|apply Forall_cons;
                                               [|apply Forall_nil]]].
    + split; [wire_tac | split; reflexivity].
    + split; [wire_tac | split; reflexivity].
    + split; [wire_tac | split; [reflexivity | split; [reflexivity|]]].
      exists (lit "0"). split; reflexivity.
  - exists (lit "</IPC>" ++ [NL]). split; [wire_tac | reflexivity].
Qed.

Lemma cmd_returns_frame_witness :
  let reply := frame_bytes sample_pre (blit "<IPC>" ++ [bNL]) sample_body
                           (blit "</IPC>" ++ [bNL]) in
  exists st',
    cmd (lit "q config") false true Utf8 (answering reply) =
    Ok ([lit "Config: v2.1.a3"; lit "Grid Analysis and Display System"], 0)
       st' /\
    stdin_log st' = [blit "q config" ++ [bNL]] /\ stdout st' = [].
Proof.
  intros reply. eexists. split.
  - refine (@cmd_returns_frame (lit "q config") false Utf8 (answering reply)
              (blit "q config" ++ [bNL]) sample_pre _ sample_body _ []
              _ eq_refl eq_refl eq_refl eq_refl eq_refl sample_frame eq_refl).
    discriminate.
  - split; reflexivity.
Defined.



(** ** Searching a sequence *)

Section Search.
Variable A : Type.
Variable eqb : A -> A -> bool.
Hypothesis eqb_eq : forall x y, eqb x y = true <-> x = y.

Lemma prefixb_app_self (p t : list A) : prefixb eqb p (p ++ t) = true.
Proof.
  induction p as [|x p IH]; simpl; [reflexivity|].
  rewrite IH. rewrite (proj2 (eqb_eq x x) eq_refl). reflexivity.
Qed.

Lemma prefixb_true (p s : list A) :
  prefixb eqb p s = true -> exists t, s = p ++ t.
Proof.
  revert s. induction p as [|x p IH]; intros s H.
  - exists s. reflexivity.
  - destruct s as [|y s]; [discriminate|]. simpl in H.
    apply andb_true_iff in H. destruct H as [Hx Hp].
    apply eqb_eq in Hx. subst y. destruct (IH s Hp) as [t ->].
    exists t. reflexivity.
Qed.

(** Whether [p] starts [u ++ v] is decided by [u] once [u] is as long
    as [p]. *)
Lemma prefixb_app_long (p u v : list A) :
  (length p <= length u)%nat -> prefixb eqb p (u ++ v) = prefixb eqb p u.
Proof.
  revert u. induction p as [|x p IH]; intros u H; [reflexivity|].
  destruct u as [|y u]; [simpl in H; lia|]. simpl.
  rewrite IH; [reflexivity | simpl in H; lia].
Qed.

Lemma infixb_app_intro (a p b : list A) : infixb eqb p (a ++ p ++ b) = true.
Proof.
  induction a as [|x a IH].
  - simpl. destruct (p ++ b) eqn:E; simpl; rewrite <- ?E;
      rewrite prefixb_app_self; reflexivity.
  - simpl. rewrite IH. apply orb_true_r.
Qed.

Lemma infixb_cons_false (p : list A) x s :
  infixb eqb p (x :: s) = false ->
  prefixb eqb p (x :: s) = false /\ infixb eqb p s = false.
Proof. simpl. intros H. apply orb_false_iff in H. exact H. Qed.

(** When no occurrence of [p] starts inside [a], what precedes the
    first occurrence of [p] in [a ++ p ++ b] is [a]. *)
Lemma before_first (p a b : list A) :
  p <> [] ->
  infixb eqb p (a ++ removelast p) = false ->
  before eqb p (a ++ p ++ b) = a.
Proof.
  intros Hp. induction a as [|x a IH]; intros H.
  - simpl. destruct (p ++ b) eqn:E; simpl; rewrite <- ?E;
      rewrite prefixb_app_self; reflexivity.
  - change ((x :: a) ++ removelast p) with (x :: (a ++ removelast p)) in H.
    apply infixb_cons_false in H. destruct H as [Hpre Hin].
    change ((x :: a) ++ p ++ b) with (x :: (a ++ p ++ b)).
    assert (E : prefixb eqb p (x :: a ++ p ++ b) = false).
    { destruct (exists_last Hp) as (q & z & Ep).
      assert (Er : removelast p = q) by (rewrite Ep; apply removelast_last).
      rewrite Er in Hpre.
      assert (Es : x :: a ++ p ++ b = (x :: a ++ q) ++ (z :: b)).
      { rewrite Ep. simpl. rewrite <- !app_assoc. reflexivity. }
      rewrite Es, prefixb_app_long; [exact Hpre|].
      rewrite Ep. simpl. rewrite !length_app. simpl. lia. }
    cbn [before]. rewrite E. rewrite (IH Hin). reflexivity.
Qed.
End Search.

Lemma byte_eqb_eq x y : Byte.eqb x y = true <-> x = y.
Proof.
  split; [apply Byte.byte_dec_bl | intros ->; apply Byte.byte_dec_lb; reflexivity].
Qed.

(** ** Reading the binary data of [exp] *)

Lemma chsize_pos : (0 < chsize)%nat.
Proof. unfold chsize. lia. Qed.

Lemma firstn_exact {A} n (c r : list A) :
  length c = n -> firstn n (c ++ r) = c /\ skipn n (c ++ r) = r.
Proof.
  intros <-. split.
  - rewrite firstn_app, Nat.sub_diag, firstn_all. simpl. apply app_nil_r.
  - rewrite skipn_app, Nat.sub_diag, skipn_all. reflexivity.
Qed.

Lemma firstn_short {A} n (u v : list A) :
  (length u <= n)%nat -> firstn n (u ++ v) = u ++ firstn (n - length u) v.
Proof.
  intros H. rewrite firstn_app, firstn_all2; [reflexivity | exact H].
Qed.

Lemma stdout_read_some n st :
  stdout_closed st = false ->
  stdout st <> [] ->
  stdout_read n st =
  Ok (firstn n (stdout st)) (set_stdout (skipn n (stdout st)) st).
Proof.
  intros Hc Hne. unfold stdout_read. rewrite Hc.
  destruct (stdout st); [contradiction | reflexivity].
Qed.

(** One round on a full chunk without the end mark: the chunk goes to
    the buffer and the loop goes on. *)
Lemma read_chunks_skip fuel handle st c r :
  stdout_closed st = false ->
  stdout st = c ++ r ->
  length c = chsize ->
  in_bytes rc_mark c = false ->
  read_chunks (S fuel) handle st =
  read_chunks fuel (handle ++ c) (set_stdout r st).
Proof.
  intros Hc Hs Hl Hn. cbn [read_chunks]. unfold bind.
  rewrite (@stdout_read_some chsize st Hc).
  - rewrite Hs. destruct (@firstn_exact byte chsize c r Hl) as [Ef Esk].
    rewrite Ef, Esk, Hn. reflexivity.
  - rewrite Hs. destruct c; [|discriminate].
    pose proof chsize_pos. simpl in Hl. lia.
Qed.

(** The chunk loop run on data followed by the end mark. *)
Lemma read_chunks_run chunks :
  forall fuel handle st payload tail,
    stdout_closed st = false ->
    Forall (fun c => length c = chsize /\ in_bytes rc_mark c = false) chunks ->
    in_bytes rc_mark (payload ++ removelast rc_mark) = false ->
    (length payload + length rc_mark <= chsize)%nat ->
    stdout st = concat chunks ++ payload ++ rc_mark ++ tail ->
    (length chunks < fuel)%nat ->
    read_chunks fuel handle st =
    (flush ;;; ret (handle ++ concat chunks ++ payload))
      (set_stdout (skipn chsize (payload ++ rc_mark ++ tail)) st).
Proof.
  induction chunks as [|c chunks IH];
    intros fuel handle st payload tail Hc Hch Hfirst Hlen Hs Hf.
  - destruct fuel as [|fuel]; [simpl in Hf; lia|].
    cbn [concat app] in Hs.
    cbn [read_chunks]. unfold bind at 1.
    rewrite (@stdout_read_some chsize st Hc);
      [|rewrite Hs; destruct payload; discriminate].
    rewrite Hs.
    assert (Ech : firstn chsize (payload ++ rc_mark ++ tail) =
                  payload ++ rc_mark
                  ++ firstn (chsize - length (payload ++ rc_mark)) tail).
    { rewrite app_assoc, firstn_short, <- app_assoc; [reflexivity|].
      rewrite length_app. exact Hlen. }
    rewrite Ech. unfold in_bytes.
    rewrite (@infixb_app_intro byte Byte.eqb byte_eqb_eq).
    rewrite (@before_first byte Byte.eqb byte_eqb_eq);
      [|discriminate | exact Hfirst].
    reflexivity.
  - destruct fuel as [|fuel]; [simpl in Hf; lia|].
    inversion Hch as [|? ? [Hl Hn] Hch']; subst.
    cbn [concat] in Hs. rewrite <- app_assoc in Hs.
    rewrite (@read_chunks_skip fuel handle st c _ Hc Hs Hl Hn).
    rewrite (IH fuel (handle ++ c) _ payload tail); try assumption.
    + cbn [concat]. rewrite <- !app_assoc. reflexivity.
    + reflexivity.
    + simpl in Hf. lia.
Qed.

(** The data may span any number of full chunks; when the chunk that
    follows holds the end mark, with no occurrence starting before it,
    the loop stops there: the pipe is flushed and the buffer holds the
    chunks read before and the bytes ahead of the mark. *)
Theorem read_chunks_finds_mark chunks :
  forall fuel handle st payload tail,
    stdout_closed st = false ->
    Forall (fun c => length c = chsize /\ in_bytes rc_mark c = false) chunks ->
    in_bytes rc_mark (payload ++ removelast rc_mark) = false ->
    (length payload + length rc_mark <= chsize)%nat ->
    stdout st = concat chunks ++ payload ++ rc_mark ++ tail ->
    (length chunks < fuel)%nat ->
    read_chunks fuel handle st =
    (flush ;;; ret (handle ++ concat chunks ++ payload))
      (set_stdout (skipn chsize (payload ++ rc_mark ++ tail)) st).
Proof. exact (@read_chunks_run chunks). Qed.

Lemma read_chunks_finds_mark_witness :
  let payload := repeat x3f 16 in
  let tail := blit " 0" ++ [bNL] in
  let st := streaming (payload ++ rc_mark ++ tail) [] in
  read_chunks 1 [] st =
  (flush ;;; ret payload)
    (set_stdout (skipn chsize (payload ++ rc_mark ++ tail)) st).
Proof.
  intros payload tail st.
  refine (@read_chunks_finds_mark [] 1 [] st payload tail eq_refl
            (Forall_nil _) _ _ eq_refl _).
  - vm_compute. reflexivity.
  - unfold chsize. simpl. lia.
  - simpl. lia.
Defined.

(** Once the pipe is empty the loop never ends: a live GrADS leaves the
    read waiting, a dead one makes it spin on empty reads. *)
Lemma read_chunks_dry fuel :
  forall handle st,
    stdout_closed st = false -> stdout st = [] ->
    exists st', read_chunks fuel handle st = Hang st'.
Proof.
  induction fuel as [|fuel IH]; intros handle st Hc Hs.
  - exists st. reflexivity.
  - cbn [read_chunks]. unfold bind, stdout_read. rewrite Hc, Hs.
    destruct (exited st).
    + change (in_bytes rc_mark []) with false. cbv iota.
      apply IH; assumption.
    + exists st. reflexivity.
Qed.

(** The end mark is looked for in each chunk on its own.  When its
    newline is the last byte of a full chunk and "<RC>" opens the next
    one, neither chunk shows it: the mark is in the pipe, yet the loop
    takes it for data and never returns. *)
Theorem read_chunks_misses_split_mark handle st a tail :
  stdout_closed st = false ->
  stdout st = a ++ rc_mark ++ tail ->
  (length a + 1)%nat = chsize ->
  in_bytes rc_mark (a ++ [bNL]) = false ->
  in_bytes rc_mark (blit "<RC>" ++ tail) = false ->
  (length tail + 4 <= chsize)%nat ->
  in_bytes rc_mark (stdout st) = true /\
  forall fuel, exists st', read_chunks fuel handle st = Hang st'.
Proof.
  intros Hc Hs Hl Ha Ht Hlen. split.
  - rewrite Hs. apply (@infixb_app_intro byte Byte.eqb byte_eqb_eq).
  - intros [|fuel]; [exists st; reflexivity|].
    assert (Hs' : stdout st = (a ++ [bNL]) ++ blit "<RC>" ++ tail)
      by (rewrite Hs, <- app_assoc; reflexivity).
    assert (Hl' : length (a ++ [bNL]) = chsize)
      by (rewrite length_app; exact Hl).
    rewrite (@read_chunks_skip fuel handle st (a ++ [bNL]) _ Hc Hs' Hl' Ha).
    destruct fuel as [|fuel]; [eexists; reflexivity|].
    set (st1 := set_stdout (blit "<RC>" ++ tail) st).
    cbn [read_chunks]. unfold bind.
    rewrite (@stdout_read_some chsize st1 Hc); [|discriminate].
    assert (Hshort : (length (stdout st1) <= chsize)%nat).
    { unfold st1. cbn [stdout set_stdout]. rewrite length_app.
      change (length (blit "<RC>")) with 4%nat. lia. }
    rewrite (@firstn_all2 byte chsize (stdout st1) Hshort),
      (@skipn_all2 byte chsize (stdout st1) Hshort).
    change (stdout st1) with (blit "<RC>" ++ tail). rewrite Ht.
    apply read_chunks_dry; [exact Hc | reflexivity].
Qed.

Lemma read_chunks_misses_split_mark_witness :
  let a := repeat x3f 4095 in
  let tail := blit " 0" ++ [bNL] in
  exists st',
    read_chunks 10 [] (streaming (a ++ rc_mark ++ tail) []) = Hang st'.
Proof.
  intros a tail.
  refine (proj2 (@read_chunks_misses_split_mark []
                   (streaming (a ++ rc_mark ++ tail) []) a tail
                   eq_refl eq_refl _ _ _ _) 10%nat).
  - vm_compute. reflexivity.
  - vm_compute. reflexivity.
  - vm_compute. reflexivity.
  - unfold chsize. simpl. lia.
Defined.

(** ** End of file inside the frame reader *)

Lemma readline_decode_eof enc st :
  stdout_closed st = false -> stdout st = [] -> exited st = true ->
  readline_decode enc st = Ok [] st.
Proof.
  intros Hc Hs He. unfold readline_decode, bind, stdout_readline.
  rewrite Hc, Hs, He. simpl.
  replace (set_stdout [] st) with st
    by (destruct st; simpl in *; subst; reflexivity).
  destruct enc; reflexivity.
Qed.

Lemma set_stdout_same st : stdout st = [] -> set_stdout [] st = st.
Proof. intros H. destruct st; simpl in *; subst; reflexivity. Qed.

Lemma seek_start_terminated enc markstart pre :
  forall fuel out st,
    Forall (noise enc markstart) pre ->
    in_str markstart out = false ->
    (length pre < fuel)%nat ->
    stdout_closed st = false ->
    exited st = true ->
    stdout st = concat pre ->
    seek_start fuel markstart enc out st = Raise terminated (set_stdout [] st).
Proof.
  induction pre as [|raw pre IH]; intros fuel out st Hpre Hout Hf Hc He Hs.
  - destruct fuel as [|fuel]; [simpl in Hf; lia|].
    cbn [concat] in Hs. cbn [seek_start]. rewrite Hout. unfold bind.
    rewrite (@readline_decode_eof enc st Hc Hs He).
    rewrite (@set_stdout_same st Hs). reflexivity.
  - destruct fuel as [|fuel]; [simpl in Hf; lia|].
    inversion Hpre as [|? ? (text & Hw & Hno) Hpre']; subst.
    cbn [concat] in Hs. cbn [seek_start]. rewrite Hout. unfold bind.
    rewrite (@readline_decode_line enc raw text _ st Hw Hc Hs).
    rewrite (@wire_line_text enc raw text Hw).
    rewrite (IH fuel text (set_stdout (concat pre) st) Hpre' Hno);
      try reflexivity; try assumption.
    simpl in Hf. lia.
Qed.

(** When GrADS has exited and what it left in the pipe never shows the
    opening tag, the frame reader raises GrADSError "GrADS terminated."
    once the pipe is drained. *)
Theorem parse_output_terminated marker vb enc pre st :
  stdout_closed st = false ->
  exited st = true ->
  Forall (noise enc (open_tag marker)) pre ->
  stdout st = concat pre ->
  _parse_output marker vb enc st = Raise terminated (set_stdout [] st).
Proof.
  intros Hc He Hpre Hs. unfold _parse_output. cbv zeta.
  fold (open_tag marker) (close_tag marker). unfold bind at 1.
  rewrite (@seek_start_terminated enc (open_tag marker) pre (rounds st) [] st
             Hpre eq_refl); try assumption; [reflexivity|].
  unfold rounds. rewrite Hs.
  pose proof (concat_length_ge (noise_nonempty Hpre)).
  unfold bytes in *. lia.
Qed.

Lemma parse_output_terminated_witness :
  let st := mkSession true false [] (blit "Segmentation fault" ++ [bNL]) []
                      false [] in
  _parse_output IPC true Utf8 st = Raise terminated (set_stdout [] st).
Proof.
  intros st.
  refine (@parse_output_terminated IPC true Utf8
            [blit "Segmentation fault" ++ [bNL]] st eq_refl eq_refl _ eq_refl).
  apply Forall_cons; [|apply Forall_nil].
  exists (lit "Segmentation fault" ++ [NL]). split; [wire_tac | reflexivity].
Defined.

(** ** Moving the stream pointer *)

Lemma move_loop_stops enc marker vb hit htext rest :
  wire_line enc hit htext ->
  in_str marker htext = true ->
  forall pre fuel out st,
    Forall (passed enc marker) pre ->
    in_str marker out = false ->
    (length pre + 2 <= fuel)%nat ->
    stdout_closed st = false ->
    stdout st = concat (List.map fst pre) ++ hit ++ rest ->
    move_loop fuel marker enc vb out st =
    Ok tt (consumed rest (if vb then List.map snd pre ++ [htext] else []) st).
Proof.
  intros Hh Hin. induction pre as [|[raw text] pre IH];
    intros fuel out st Hpre Hout Hf Hc Hs.
  - destruct fuel as [|[|fuel]]; [simpl in Hf; lia | simpl in Hf; lia|].
    cbn [List.map concat app] in Hs. cbn [move_loop]. rewrite Hout.
    unfold bind at 1.
    rewrite (@readline_decode_line enc hit htext rest st Hh Hc Hs).
    unfold bind at 1. destruct vb.
    + unfold print at 1. cbv beta iota.
      rewrite (@wire_line_text enc hit htext Hh), Hin. reflexivity.
    + unfold ret at 1. cbv beta iota.
      rewrite (@wire_line_text enc hit htext Hh), Hin.
      rewrite consumed_nothing. reflexivity.
  - destruct fuel as [|fuel]; [simpl in Hf; lia|].
    inversion Hpre as [|? ? [Hw Hno] Hpre']; subst. simpl in Hw, Hno.
    cbn [List.map concat fst] in Hs. rewrite <- app_assoc in Hs.
    cbn [move_loop]. rewrite Hout. unfold bind at 1.
    rewrite (@readline_decode_line enc raw text _ st Hw Hc Hs).
    assert (Hf' : (length pre + 2 <= fuel)%nat) by (simpl in Hf; lia).
    unfold bind at 1. destruct vb.
    + unfold print at 1. cbv beta iota.
      rewrite (@wire_line_text enc raw text Hw).
      rewrite (IH fuel text _ Hpre' Hno Hf'); [|exact Hc | reflexivity].
      unfold consumed. simpl. rewrite <- app_assoc. reflexivity.
    + unfold ret at 1. cbv beta iota.
      rewrite (@wire_line_text enc raw text Hw).
      rewrite (IH fuel text _ Hpre' Hno Hf'); [|exact Hc | reflexivity].
      reflexivity.
Qed.

(** [move_pointer] run on lines of which the last shows the marker. *)
Lemma move_pointer_run marker enc vb pre hit htext rest st :
  marker <> [] ->
  stdout_closed st = false ->
  Forall (passed enc marker) pre ->
  wire_line enc hit htext ->
  in_str marker htext = true ->
  stdout st = concat (List.map fst pre) ++ hit ++ rest ->
  move_pointer marker enc vb st =
  Ok tt (consumed rest (if vb then List.map snd pre ++ [htext] else []) st).
Proof.
  intros Hm Hc Hpre Hh Hin Hs. unfold move_pointer.
  apply (@move_loop_stops enc marker vb hit htext rest Hh Hin);
    try assumption.
  - destruct marker; [contradiction | reflexivity].
  - unfold rounds. rewrite Hs, length_app.
    assert (L : (length pre <= length (concat (List.map fst pre)))%nat).
    { rewrite <- (length_map fst pre). apply concat_length_ge.
      apply Forall_map. revert Hpre. apply Forall_impl.
      intros [raw text] [[Hl _] _]. exact (@line_nonempty raw Hl). }
    unfold bytes in *. lia.
Qed.

(** [move_pointer] reads on until a line contains the marker anywhere,
    and leaves the pipe right after that line; with [verbose] every line
    read is printed, the matching one included. *)
Theorem move_pointer_stops marker enc vb pre hit htext rest st :
  marker <> [] ->
  stdout_closed st = false ->
  Forall (passed enc marker) pre ->
  wire_line enc hit htext ->
  in_str marker htext = true ->
  stdout st = concat (List.map fst pre) ++ hit ++ rest ->
  move_pointer marker enc vb st =
  Ok tt (consumed rest (if vb then List.map snd pre ++ [htext] else []) st).
Proof.
  intros Hm Hc Hpre Hh Hin Hs.
  exact (@move_pointer_run marker enc vb pre hit htext rest st
           Hm Hc Hpre Hh Hin Hs).
Qed.

Lemma move_pointer_stops_witness :
  let st := streaming (blit "<IPC>" ++ [bNL] ++ blit "<FWRITE>" ++ [bNL]
                       ++ [x00; x01]) [] in
  move_pointer (lit "<FWRITE>") Latin1 false st =
  Ok tt (consumed [x00; x01] [] st).
Proof.
  intros st.
  refine (@move_pointer_stops (lit "<FWRITE>") Latin1 false
            [(blit "<IPC>" ++ [bNL], lit "<IPC>" ++ [NL])]
            (blit "<FWRITE>" ++ [bNL]) (lit "<FWRITE>" ++ [NL]) [x00; x01] st
            _ eq_refl _ _ eq_refl eq_refl).
  - discriminate.
  - apply Forall_cons; [|apply Forall_nil].
    split; [wire_tac | reflexivity].
  - wire_tac.
Defined.

(** ** Which queries an environment runs *)

Lemma seq_eqb_eq a : forall b, seq_eqb a b = true <-> a = b.
Proof.
  induction a as [|c a IH]; intros [|d b]; simpl; split; intros H;
    try reflexivity; try discriminate.
  - apply andb_true_iff in H. destruct H as [Hc Ha].
    apply N.eqb_eq in Hc. apply IH in Ha. subst. reflexivity.
  - inversion H; subst. rewrite N.eqb_refl. simpl. apply IH. reflexivity.
Qed.

Lemma wanted_iff query name :
  GaEnv.wanted query name = true <-> query = lit name \/ query = lit "all".
Proof.
  unfold GaEnv.wanted. rewrite orb_true_iff, !seq_eqb_eq. reflexivity.
Qed.

Section Queries.
Context {lib : PyLib}.

(** A query name that is none of "dims", "ctlinfo", "gxout", "all"
    sends nothing to GrADS and gives an object without attributes. *)
Theorem init_unknown_query query st :
  query <> lit "dims" -> query <> lit "ctlinfo" -> query <> lit "gxout" ->
  query <> lit "all" ->
  GaEnv.__init__ query st = Ok (GaEnv.mkEnv None None None) st.
Proof.
  intros Hd Hc Hg Ha.
  assert (W : forall name, query <> lit name ->
                           GaEnv.wanted query name = false).
  { intros name Hn. destruct (GaEnv.wanted query name) eqn:E; [|reflexivity].
    apply wanted_iff in E. destruct E; contradiction. }
  unfold GaEnv.__init__.
  rewrite (W "dims"%string Hd), (W "ctlinfo"%string Hc), (W "gxout"%string Hg).
  reflexivity.
Qed.
End Queries.

Lemma init_unknown_query_witness :
  GaEnv.__init__ (lit "dimensions") idle = Ok (GaEnv.mkEnv None None None) idle.
Proof.
  apply init_unknown_query; discriminate.
Defined.

Section Failed_query.
Context {lib : PyLib}.

End Failed_query.


(** ** What is printed *)

Lemma hushed_ret {A} (a : A) : hushed (ret a).
Proof. intros st. reflexivity. Qed.

Lemma hushed_raise {A} e : hushed (@raise A e).
Proof. intros st. reflexivity. Qed.

Lemma hushed_hang {A} : hushed (@hang A).
Proof. intros st. reflexivity. Qed.

Lemma hushed_bind {A B} (m : M A) (k : A -> M B) :
  hushed m -> (forall a, hushed (k a)) -> hushed (bind m k).
Proof.
  intros Hm Hk st. unfold bind. specialize (Hm st).
  destruct (m st) as [a s|e s|s]; simpl in *; try assumption.
  rewrite (Hk a s). exact Hm.
Qed.

Lemma hushed_at {A} (f : session -> M A) :
  (forall s, hushed (f s)) -> hushed (fun st => f st st).
Proof. intros H st. apply (H st). Qed.

Lemma hushed_readline_decode enc : hushed (readline_decode enc).
Proof.
  apply hushed_bind.
  - intros st. unfold stdout_readline.
    destruct (stdout_closed st); [reflexivity|].
    destruct (existsb _ _ || exited st); [|reflexivity].
    destruct (upto _ _). reflexivity.
  - intros l. destruct (decode enc l); [apply hushed_ret | apply hushed_raise].
Qed.

Lemma hushed_seek_start fuel markstart enc :
  forall out, hushed (seek_start fuel markstart enc out).
Proof.
  induction fuel as [|fuel IH]; intros out; cbn [seek_start].
  - apply hushed_hang.
  - destruct (in_str markstart out); [apply hushed_ret|].
    apply hushed_bind; [apply hushed_readline_decode|]. intros out'.
    destruct (length out' =? 0)%nat; [apply hushed_raise | apply IH].
Qed.

Lemma hushed_collect fuel markend enc :
  forall out lines rc, hushed (collect fuel markend false enc out lines rc).
Proof.
  induction fuel as [|fuel IH]; intros out lines rc; cbn [collect].
  - apply hushed_hang.
  - destruct (in_str markend out); [apply hushed_ret|].
    destruct (0 <? length out)%nat; [|apply hushed_raise].
    destruct (in_str (lit "<RC>") out).
    + destruct (nth_error (split out) 1) as [tok|]; [|apply hushed_raise].
      destruct (int tok) as [n|]; [|apply hushed_raise].
      apply hushed_bind; [apply hushed_readline_decode | intros; apply IH].
    + apply hushed_bind; [apply hushed_ret | intros _].
      apply hushed_bind; [apply hushed_readline_decode | intros; apply IH].
Qed.

Lemma hushed_parse_output marker enc : hushed (_parse_output marker false enc).
Proof.
  unfold _parse_output. cbv zeta. apply hushed_bind.
  - apply (hushed_at (fun s => seek_start (rounds s) _ enc [])).
    intros s. apply hushed_seek_start.
  - intros _. apply hushed_bind; [apply hushed_readline_decode|].
    intros out.
    apply (hushed_at (fun s => collect (rounds s) _ false enc out [] (-1))).
    intros s. apply hushed_collect.
Qed.

(** Nothing is printed by [cmd] when its [verbose] argument is false,
    or when the session was made with [verbose=False]: the global
    setting overrides the local one. *)
Theorem cmd_prints_nothing gacmd vb block enc st :
  vb = false \/ verbose st = false ->
  console (final (cmd gacmd vb block enc st)) = console st.
Proof.
  intros Hv.
  destruct (cmd_cases gacmd vb block enc st)
    as [[e ->]|(data & reply & later & _ & _ & _ & _ & ->)];
    [reflexivity|].
  assert (Hflag : vb && verbose st = false).
  { destruct Hv as [-> | ->]; [reflexivity | apply andb_false_r]. }
  rewrite Hflag. destruct block; [|reflexivity].
  assert (Q : hushed (await (sent_form gacmd) false enc)).
  { unfold await. apply hushed_bind; [apply hushed_parse_output|].
    intros [outlines rc]. destruct (in_str _ _);
      [apply hushed_raise | apply hushed_ret]. }
  rewrite (Q (after_write data reply later st)). reflexivity.
Qed.

Lemma cmd_prints_nothing_witness :
  console (final (cmd (lit "q config") true true Utf8
                      (mkSession false false [] [] [syntax_error_reply]
                                 false [])))
  = [].
Proof.
  refine (@cmd_prints_nothing (lit "q config") true true Utf8
            (mkSession false false [] [] [syntax_error_reply] false [])
            (or_intror eq_refl)).
Defined.

(** ** A whole export *)

Lemma cmd_acknowledged gacmd data reply later st :
  gacmd <> [] ->
  encode_utf8 (sent_form gacmd) = Some data ->
  stdin_closed st = false ->
  stdout_closed st = false ->
  stdout st = [] ->
  replies st = reply :: later ->
  acknowledged reply ->
  exists r, cmd gacmd false true Utf8 st = Ok r (told data later st).
Proof.
  intros Hne He Hc Hoc Hs Hr (pre & opening & body & closing & -> & Hf & Hse).
  eexists.
  rewrite (@cmd_frame_run gacmd false Utf8 st data pre opening body closing
             later Hne He Hc Hoc Hs Hr Hf Hse).
  unfold consumed, after_write, told.
  cbn [verbose stdin_closed stdin_log replies stdout_closed console andb].
  rewrite app_nil_r. reflexivity.
Qed.

Lemma flush_acknowledged reply later st :
  stdin_closed st = false ->
  stdout_closed st = false ->
  stdout st = [] ->
  replies st = reply :: later ->
  acknowledged reply ->
  flush st = Ok tt (told (blit "q config" ++ [bNL]) later st).
Proof.
  intros Hc Hoc Hs Hr Ha. unfold flush, bind.
  destruct (@cmd_acknowledged (lit "q config") (blit "q config" ++ [bNL])
              reply later st ltac:(discriminate) eq_refl Hc Hoc Hs Hr Ha)
    as [r ->].
  reflexivity.
Qed.

Lemma chunks_counted chunks :
  Forall (fun c : bytes => length c = chsize /\ in_bytes rc_mark c = false)
         chunks ->
  (length chunks <= length (concat chunks))%nat.
Proof.
  intros H. apply concat_length_ge. revert H. apply Forall_impl.
  intros c [Hl _] ->. pose proof chsize_pos. simpl in Hl. lia.
Qed.

Section Export_run.
Context {lib : PyLib}.

(** [exp] through "display": the environment asked for, the binary
    output switched on, the expression sent without waiting for the
    answer. *)
Lemma exp_until_display expr st e d st1 dexpr ack1 ack2 answer later :
  env (lit "all") st = Ok e st1 ->
  GaEnv.dims e = Some d ->
  GaEnv.xfixed d = false ->
  GaEnv.yfixed d = false ->
  GaEnv.rank d = 2 ->
  encode_utf8 (sent_form (lit "display " ++ expr)) = Some dexpr ->
  stdin_closed st1 = false ->
  stdout_closed st1 = false ->
  stdout st1 = [] ->
  replies st1 = ack1 :: ack2 :: answer :: later ->
  acknowledged ack1 ->
  acknowledged ack2 ->
  exists s,
    exp expr st = receive e d expr s /\
    stdin_log s = stdin_log st ++ env_queries ++ export_setup dexpr /\
    stdin_closed s = false /\
    stdout_closed s = false /\
    stdout s = answer /\
    replies s = later /\
    console s = console st1.
Proof.
  intros He Hd Hx Hy Hrk Ede Hc Hoc Hs Hr A1 A2.
  pose proof (@env_log _ st e st1 He) as Hlog.
  unfold exp. unfold bind at 1. rewrite He, Hd, Hx, Hy, Hrk.
  change ((false || false) || negb (2 =? 2)) with false. cbv iota.
  (* set gxout fwrite *)
  destruct (@cmd_acknowledged (lit "set gxout fwrite")
              (blit "set gxout fwrite" ++ [bNL]) ack1 _ st1
              ltac:(discriminate) eq_refl Hc Hoc Hs Hr A1) as [r1 E1].
  unfold bind at 1. rewrite E1. clear E1 r1.
  match goal with
  | |- context [told ?c ?l st1] => set (s2 := told c l st1)
  end.
  (* set fwrite -st - *)
  destruct (@cmd_acknowledged (lit "set fwrite -st -")
              (blit "set fwrite -st -" ++ [bNL]) ack2 _ s2
              ltac:(discriminate) eq_refl eq_refl Hoc eq_refl eq_refl A2)
    as [r2 E2].
  unfold bind at 1. rewrite E2. clear E2 r2.
  match goal with
  | |- context [told ?c ?l s2] => set (s3 := told c l s2)
  end.
  (* display *)
  assert (Hne : lit "display " ++ expr <> []) by discriminate.
  unfold bind at 1.
  rewrite (@cmd_live (lit "display " ++ expr) false false Utf8 s3 dexpr _ _
             Hne Ede eq_refl eq_refl).
  unfold ret at 1.
  eexists. split; [reflexivity|].
  split; [|split; [reflexivity | split; [exact Hoc|]]].
  - unfold s3, s2. cbn [told after_write stdin_log].
    rewrite Hlog. unfold export_setup. rewrite <- !app_assoc. reflexivity.
  - split; [reflexivity | split; reflexivity].
Qed.

(** [exp] up to the point where the data is in hand: the environment
    asked for, the binary output switched on, the expression displayed,
    the data read off the pipe and the pipe flushed. *)
Lemma exp_until_shape expr st e d st1 dexpr ack1 ack2 ack3 later
      pre hit htext chunks payload tail :
  env (lit "all") st = Ok e st1 ->
  GaEnv.dims e = Some d ->
  GaEnv.xfixed d = false ->
  GaEnv.yfixed d = false ->
  GaEnv.rank d = 2 ->
  encode_utf8 (sent_form (lit "display " ++ expr)) = Some dexpr ->
  stdin_closed st1 = false ->
  stdout_closed st1 = false ->
  stdout st1 = [] ->
  replies st1 = ack1 :: ack2
                :: grid_reply pre hit (concat chunks ++ payload) tail
                :: ack3 :: later ->
  Forall acknowledged [ack1; ack2; ack3] ->
  Forall (passed Latin1 (lit "<FWRITE>")) pre ->
  wire_line Latin1 hit htext ->
  in_str (lit "<FWRITE>") htext = true ->
  Forall (fun c => length c = chsize /\ in_bytes rc_mark c = false) chunks ->
  in_bytes rc_mark (payload ++ removelast rc_mark) = false ->
  (length payload + length rc_mark + length tail <= chsize)%nat ->
  exists s,
    exp expr st =
    (r <- resolve (GaEnv.nx d) (GaEnv.ny d) (concat chunks ++ payload) expr ;;
     finish e r) s /\
    stdin_log s = stdin_log st ++ env_queries ++ export_opening dexpr /\
    stdin_closed s = false /\
    stdout_closed s = false /\
    stdout s = [] /\
    replies s = later /\
    console s = console st1.
Proof.
  intros He Hd Hx Hy Hrk Ede Hc Hoc Hs Hr Hack Hpre Hh Hin Hch
         Hfirst Hlen.
  inversion Hack as [|? ? A1 Hack1]; subst.
  inversion Hack1 as [|? ? A2 Hack2]; subst.
  inversion Hack2 as [|? ? A3 _]; subst.
  clear Hack Hack1 Hack2.
  destruct (@exp_until_display expr st e d st1 dexpr ack1 ack2 _
              (ack3 :: later) He Hd Hx Hy Hrk Ede Hc Hoc Hs Hr A1 A2)
    as (s4 & -> & Hlog & Hc4 & Hoc4 & Hs4 & Hr4 & Hk4).
  assert (Eg : stdout s4 = concat (List.map fst pre) ++ hit
                           ++ (concat chunks ++ payload ++ rc_mark ++ tail)).
  { rewrite Hs4. unfold grid_reply. rewrite <- app_assoc. reflexivity. }
  unfold receive. unfold bind at 1.
  rewrite (@move_pointer_run (lit "<FWRITE>") Latin1 false pre hit htext
             (concat chunks ++ payload ++ rc_mark ++ tail) s4
             ltac:(discriminate) Hoc4 Hpre Hh Hin Eg).
  rewrite consumed_nothing.
  match goal with
  | |- context [set_stdout ?r s4] => set (s5 := set_stdout r s4)
  end.
  (* the data *)
  assert (Hfuel : (length chunks < rounds s5)%nat).
  { unfold rounds, s5. cbn [stdout set_stdout]. rewrite length_app.
    pose proof (@chunks_counted chunks Hch). unfold bytes in *. lia. }
  unfold bind at 1.
  assert (Hlen' : (length payload + length rc_mark <= chsize)%nat) by lia.
  rewrite (@read_chunks_run chunks (rounds s5) [] s5 payload tail
             Hoc4 Hch Hfirst Hlen' eq_refl Hfuel).
  rewrite skipn_all2;
    [|rewrite !length_app; unfold bytes in *; lia].
  unfold bind at 1.
  rewrite (@flush_acknowledged ack3 later
             (set_stdout [] s5) Hc4 Hoc4 eq_refl Hr4 A3).
  unfold ret at 1. cbn [app].
  eexists. split; [reflexivity|].
  split; [|split; [reflexivity | split; [exact Hoc4|]]].
  - unfold s5. cbn [told set_stdout stdin_log].
    rewrite Hlog. unfold export_opening, export_setup.
    rewrite <- !app_assoc. reflexivity.
  - split; [reflexivity | split; [reflexivity | exact Hk4]].
Qed.

Lemma first_match_product env_nx env_ny size nx ny :
  first_match size (possible_sizes env_nx env_ny) = Some (nx, ny) ->
  nx * ny = size.
Proof.
  unfold first_match. intros Em.
  destruct (find _ _) as [[shp n]|] eqn:Efind; [|discriminate].
  simpl in Em. inversion Em; subst.
  apply find_some in Efind. destruct Efind as [Hin Hn].
  simpl in Hn. apply Z.eqb_eq in Hn.
  unfold possible_sizes in Hin. simpl in Hin.
  repeat (destruct Hin as [Hin|Hin]; [inversion Hin; subst; reflexivity|]).
  contradiction.
Qed.

(** [reshape] to lengths whose product is the size: it is the lengths
    being both non-negative that decides. *)
Lemma reshape_sized arr a b st :
  a * b = Z.of_nat (length arr) ->
  reshape arr (a, b) st =
  if (0 <=? b) && (0 <=? a) then Ok (mkArray arr (a, b)) st
  else Raise ValueError st.
Proof.
  intros H. unfold reshape.
  destruct (a <? 0) eqn:Ea, (b <? 0) eqn:Eb; cbn [andb].
  - apply Z.ltb_lt in Eb. apply Z.leb_gt in Eb. rewrite Eb. reflexivity.
  - apply Z.ltb_lt in Ea. apply Z.ltb_ge in Eb.
    assert (b = 0) by nia. subst b.
    apply Z.leb_gt in Ea. rewrite Ea. reflexivity.
  - apply Z.ltb_ge in Ea. apply Z.ltb_lt in Eb.
    assert (a = 0) by nia. subst a.
    apply Z.leb_gt in Eb. rewrite Eb. reflexivity.
  - apply Z.ltb_ge in Ea. apply Z.ltb_ge in Eb.
    apply Z.leb_le in Ea. apply Z.leb_le in Eb. rewrite Ea, Eb.
    apply Z.eqb_eq in H. rewrite H. reflexivity.
Qed.

(** A whole export.  With x and y the two varying axes, every command
    acknowledged, and the answer to "display" carrying the data (any
    number of full chunks, then a last chunk with the end mark and the
    rest of the frame), [exp] settles on the first candidate (nx, ny)
    with as many elements as the data and, when neither length is
    negative, returns the elements of the data shaped (ny, nx).  When
    a length is negative, as for a range that runs downwards, the final
    reshape raises ValueError instead.  Either way [exp] has written,
    after the three queries, "set gxout fwrite", "set fwrite -st -",
    "display <expr>", "q config", "disable fwrite" and
    "set gxout <2D scalar mode>", has read every answer to its end, and
    has printed nothing of its own. *)
Theorem exp_returns_grid expr st e d g mode st1 dexpr dmode
        ack1 ack2 ack3 ack4 ack5 later pre hit htext chunks payload tail
        arr nx ny :
  env (lit "all") st = Ok e st1 ->
  GaEnv.dims e = Some d ->
  GaEnv.xfixed d = false ->
  GaEnv.yfixed d = false ->
  GaEnv.rank d = 2 ->
  GaEnv.gxout e = Some g ->
  GaEnv.gx2Dscalar g = Some mode ->
  encode_utf8 (sent_form (lit "display " ++ expr)) = Some dexpr ->
  encode_utf8 (sent_form (lit "set gxout " ++ mode)) = Some dmode ->
  stdin_closed st1 = false ->
  stdout_closed st1 = false ->
  stdout st1 = [] ->
  replies st1 = ack1 :: ack2
                :: grid_reply pre hit (concat chunks ++ payload) tail
                :: ack3 :: ack4 :: ack5 :: later ->
  Forall acknowledged [ack1; ack2; ack3; ack4; ack5] ->
  Forall (passed Latin1 (lit "<FWRITE>")) pre ->
  wire_line Latin1 hit htext ->
  in_str (lit "<FWRITE>") htext = true ->
  Forall (fun c => length c = chsize /\ in_bytes rc_mark c = false) chunks ->
  in_bytes rc_mark (payload ++ removelast rc_mark) = false ->
  (length payload + length rc_mark + length tail <= chsize)%nat ->
  fromstring (concat chunks ++ payload) = Some arr ->
  first_match (Z.of_nat (length arr))
              (possible_sizes (GaEnv.nx d) (GaEnv.ny d)) = Some (nx, ny) ->
  exists st',
    exp expr st =
    (if (0 <=? nx) && (0 <=? ny) then Ok (mkArray arr (ny, nx)) st'
     else Raise ValueError st') /\
    stdin_log st' = stdin_log st ++ env_queries ++ export_commands dexpr dmode /\
    stdout st' = [] /\
    replies st' = later /\
    console st' = console st1.
Proof.
  intros He Hd Hx Hy Hrk Hg Hm Ede Edm Hc Hoc Hs Hr Hack Hpre Hh Hin Hch
         Hfirst Hlen Hfs Hfm.
  inversion Hack as [|? ? A1 Hack1]; subst.
  inversion Hack1 as [|? ? A2 Hack2]; subst.
  inversion Hack2 as [|? ? A3 Hack3]; subst.
  inversion Hack3 as [|? ? A4 Hack4]; subst.
  inversion Hack4 as [|? ? A5 _]; subst.
  destruct (@exp_until_shape expr st e d st1 dexpr ack1 ack2 ack3
              (ack4 :: ack5 :: later) pre hit htext chunks payload tail
              He Hd Hx Hy Hrk Ede Hc Hoc Hs Hr
              (Forall_cons _ A1 (Forall_cons _ A2 (Forall_cons _ A3
                                                    (Forall_nil _))))
              Hpre Hh Hin Hch Hfirst Hlen)
    as (s & -> & Hlog & Hc6 & Hoc6 & Hs6 & Hr6 & Hk6).
  unfold bind at 1.
  rewrite (@resolve_first_match_gen (GaEnv.nx d) (GaEnv.ny d)
             (concat chunks ++ payload) expr s arr Hfs), Hfm.
  unfold finish.
  (* disable fwrite *)
  destruct (@cmd_acknowledged (lit "disable fwrite")
              (blit "disable fwrite" ++ [bNL]) ack4 (ack5 :: later) s
              ltac:(discriminate) eq_refl Hc6 Hoc6 Hs6 Hr6 A4)
    as [r4 E4].
  unfold bind at 1. rewrite E4. clear E4 r4.
  match goal with
  | |- context [told ?c ?l s] => set (s7 := told c l s)
  end.
  (* set gxout <mode> *)
  rewrite Hg, Hm.
  assert (Hne' : lit "set gxout " ++ mode <> []) by discriminate.
  destruct (@cmd_acknowledged (lit "set gxout " ++ mode) dmode ack5 later s7
              Hne' Edm eq_refl Hoc6 eq_refl eq_refl A5) as [r5 E5].
  unfold bind at 1. rewrite E5. clear E5 r5.
  rewrite (@reshape_sized arr ny nx _
             ltac:(rewrite Z.mul_comm; exact (first_match_product _ _ _ Hfm))).
  eexists. split; [reflexivity|].
  split; [|split; [reflexivity | split; [reflexivity|exact Hk6]]].
  cbn [told stdin_log]. unfold s7. cbn [told stdin_log].
  rewrite Hlog. unfold export_commands, export_opening.
  rewrite <- !app_assoc. reflexivity.
Qed.

(** An export that fails on the size of the data cleans nothing up.
    When the data has no whole number of elements, or a number that no
    candidate shape has, [exp] raises the "Problems occurred" error
    right after the flush: neither "disable fwrite" nor the "set gxout"
    that restores the graphics mode is sent, so GrADS is left writing
    to the pipe. *)
Theorem exp_failure_skips_cleanup expr st e d st1 dexpr ack1 ack2 ack3 later
        pre hit htext chunks payload tail :
  env (lit "all") st = Ok e st1 ->
  GaEnv.dims e = Some d ->
  GaEnv.xfixed d = false ->
  GaEnv.yfixed d = false ->
  GaEnv.rank d = 2 ->
  encode_utf8 (sent_form (lit "display " ++ expr)) = Some dexpr ->
  stdin_closed st1 = false ->
  stdout_closed st1 = false ->
  stdout st1 = [] ->
  replies st1 = ack1 :: ack2
                :: grid_reply pre hit (concat chunks ++ payload) tail
                :: ack3 :: later ->
  Forall acknowledged [ack1; ack2; ack3] ->
  Forall (passed Latin1 (lit "<FWRITE>")) pre ->
  wire_line Latin1 hit htext ->
  in_str (lit "<FWRITE>") htext = true ->
  Forall (fun c => length c = chsize /\ in_bytes rc_mark c = false) chunks ->
  in_bytes rc_mark (payload ++ removelast rc_mark) = false ->
  (length payload + length rc_mark + length tail <= chsize)%nat ->
  (forall arr,
      fromstring (concat chunks ++ payload) = Some arr ->
      first_match (Z.of_nat (length arr))
                  (possible_sizes (GaEnv.nx d) (GaEnv.ny d)) = None) ->
  exists st',
    exp expr st = Raise (problems expr) st' /\
    stdin_log st' = stdin_log st ++ env_queries ++ export_opening dexpr /\
    replies st' = later.
Proof.
  intros He Hd Hx Hy Hrk Ede Hc Hoc Hs Hr Hack Hpre Hh Hin Hch
         Hfirst Hlen Hbad.
  destruct (@exp_until_shape expr st e d st1 dexpr ack1 ack2 ack3
              later pre hit htext chunks payload tail
              He Hd Hx Hy Hrk Ede Hc Hoc Hs Hr Hack
              Hpre Hh Hin Hch Hfirst Hlen)
    as (s & -> & Hlog & _ & _ & _ & Hr6 & _).
  exists s. split; [|split; assumption].
  unfold bind at 1.
  destruct (fromstring (concat chunks ++ payload)) as [arr|] eqn:Hfs.
  - rewrite (@resolve_first_match_gen (GaEnv.nx d) (GaEnv.ny d)
               (concat chunks ++ payload) expr s arr Hfs).
    rewrite (Hbad arr eq_refl). reflexivity.
  - unfold resolve. rewrite Hfs. reflexivity.
Qed.
End Export_run.

Lemma ack_acknowledged : acknowledged ack.
Proof.
  exists [], (blit "<IPC>" ++ [bNL]),
         [Code (blit "<RC> 0" ++ [bNL]) (lit "<RC> 0" ++ [NL]) 0],
         (blit "</IPC>" ++ [bNL]).
  split; [reflexivity|]. split; [|reflexivity].
  split; [|split; [|split]].
  - apply Forall_nil.
  - exists (lit "<IPC>" ++ [NL]). split; [wire_tac | reflexivity].
  - apply Forall_cons; [|apply Forall_nil].
    split; [wire_tac | split; [reflexivity | split; [reflexivity|]]].
    exists (lit "0"). split; reflexivity.
  - exists (lit "</IPC>" ++ [NL]). split; [wire_tac | reflexivity].
Qed.

Lemma exp_returns_grid_witness :
  (exists st',
      exp (lit "ts")
          (scripted [dims_reply; ctlinfo_reply; gxout_reply;
                     ack; ack; grid_sample; ack; ack; ack])
      = Ok (mkArray (repeat (x3f, x3f, x3f, x3f) 4) (2, 2)) st' /\
      stdin_log st' =
      env_queries ++ export_commands (blit "display ts" ++ [bNL])
                                     (blit "set gxout contour" ++ [bNL])) /\
  (exists st',
      exp (lit "ts")
          (scripted [dims_reply_down; ctlinfo_reply; gxout_reply;
                     ack; ack; grid_twelve; ack; ack; ack])
      = Raise ValueError st' /\
      stdin_log st' =
      env_queries ++ export_commands (blit "display ts" ++ [bNL])
                                     (blit "set gxout contour" ++ [bNL])).
Proof.
  split.
  - assert (H : env (lit "all")
                    (scripted [dims_reply; ctlinfo_reply; gxout_reply;
                               ack; ack; grid_sample; ack; ack; ack])
                = Ok _ _) by (vm_compute; reflexivity).
    destruct (@exp_returns_grid _ (lit "ts") _ _ _ _ (lit "contour") _
                (blit "display ts" ++ [bNL])
                (blit "set gxout contour" ++ [bNL])
                ack ack ack ack ack []
                [(blit "<IPC>" ++ [bNL], lit "<IPC>" ++ [NL])]
                (blit "<FWRITE>" ++ [bNL]) (lit "<FWRITE>" ++ [NL])
                [] (repeat x3f 16)
                (blit " 0" ++ [bNL] ++ blit "</IPC>" ++ [bNL])
                (repeat (x3f, x3f, x3f, x3f) 4) 2 2
                H eq_refl eq_refl eq_refl eq_refl eq_refl eq_refl
                eq_refl eq_refl eq_refl eq_refl eq_refl eq_refl)
      as (st' & E & L & _).
    + repeat (apply Forall_cons; [exact ack_acknowledged|]). apply Forall_nil.
    + apply Forall_cons; [|apply Forall_nil]. split; [wire_tac | reflexivity].
    + wire_tac.
    + reflexivity.
    + apply Forall_nil.
    + vm_compute. reflexivity.
    + unfold chsize. simpl. lia.
    + reflexivity.
    + reflexivity.
    + exists st'. split; [exact E | exact L].
  - assert (H : env (lit "all")
                    (scripted [dims_reply_down; ctlinfo_reply; gxout_reply;
                               ack; ack; grid_twelve; ack; ack; ack])
                = Ok _ _) by (vm_compute; reflexivity).
    destruct (@exp_returns_grid _ (lit "ts") _ _ _ _ (lit "contour") _
                (blit "display ts" ++ [bNL])
                (blit "set gxout contour" ++ [bNL])
                ack ack ack ack ack []
                [(blit "<IPC>" ++ [bNL], lit "<IPC>" ++ [NL])]
                (blit "<FWRITE>" ++ [bNL]) (lit "<FWRITE>" ++ [NL])
                [] (repeat x3f 48)
                (blit " 0" ++ [bNL] ++ blit "</IPC>" ++ [bNL])
                (repeat (x3f, x3f, x3f, x3f) 12) (-6) (-2)
                H eq_refl eq_refl eq_refl eq_refl eq_refl eq_refl
                eq_refl eq_refl eq_refl eq_refl eq_refl eq_refl)
      as (st' & E & L & _).
    + repeat (apply Forall_cons; [exact ack_acknowledged|]). apply Forall_nil.
    + apply Forall_cons; [|apply Forall_nil]. split; [wire_tac | reflexivity].
    + wire_tac.
    + reflexivity.
    + apply Forall_nil.
    + vm_compute. reflexivity.
    + unfold chsize. simpl. lia.
    + reflexivity.
    + reflexivity.
    + exists st'. split; [exact E | exact L].
Defined.

Lemma exp_failure_skips_cleanup_witness :
  exists st',
    exp (lit "ts")
        (scripted [dims_reply; ctlinfo_reply; gxout_reply;
                   ack; ack; grid_short; ack])
    = Raise (problems (lit "ts")) st' /\
    stdin_log st' =
    env_queries ++ export_opening (blit "display ts" ++ [bNL]).
Proof.
  assert (H : env (lit "all")
                  (scripted [dims_reply; ctlinfo_reply; gxout_reply;
                             ack; ack; grid_short; ack])
              = Ok _ _) by (vm_compute; reflexivity).
  destruct (@exp_failure_skips_cleanup _ (lit "ts") _ _ _ _
              (blit "display ts" ++ [bNL])
              ack ack ack []
              [(blit "<IPC>" ++ [bNL], lit "<IPC>" ++ [NL])]
              (blit "<FWRITE>" ++ [bNL]) (lit "<FWRITE>" ++ [NL])
              [] (repeat x3f 4)
              (blit " 0" ++ [bNL] ++ blit "</IPC>" ++ [bNL])
              H eq_refl eq_refl eq_refl eq_refl eq_refl eq_refl eq_refl
              eq_refl eq_refl)
    as (st' & E & L & _).
  - repeat (apply Forall_cons; [exact ack_acknowledged|]). apply Forall_nil.
  - apply Forall_cons; [|apply Forall_nil]. split; [wire_tac | reflexivity].
  - wire_tac.
  - reflexivity.
  - apply Forall_nil.
  - vm_compute. reflexivity.
  - unfold chsize. simpl. lia.
  - intros arr Ha. vm_compute in Ha. inversion Ha; subst. reflexivity.
  - exists st'. split; [exact E | exact L].
Defined.

(** ** A frame that is cut short *)

Lemma collect_truncated enc vb markend :
  in_str markend [] = false ->
  forall body fuel lines rc st,
    Forall (well_formed enc markend) body ->
    (length body < fuel)%nat ->
    stdout_closed st = false ->
    exited st = true ->
    stdout st = concat (List.map raw_of body) ->
    (out <- readline_decode enc ;;
     collect fuel markend vb enc out lines rc) st
    = Raise terminated (consumed [] (if vb then texts body else []) st).
Proof.
  intros Hm. induction body as [|e body IH];
    intros fuel lines rc st Hwf Hf Hc Hx Hs.
  - destruct fuel as [|fuel]; [simpl in Hf; lia|].
    cbn [List.map concat] in Hs. unfold bind.
    rewrite (@readline_decode_eof enc st Hc Hs Hx).
    cbn [collect]. rewrite Hm. cbn [length Nat.ltb Nat.leb].
    simpl texts. destruct vb; rewrite consumed_nothing;
      rewrite (@set_stdout_same st Hs); reflexivity.
  - destruct fuel as [|fuel]; [simpl in Hf; lia|].
    assert (Hf' : (length body < fuel)%nat) by (simpl in Hf; lia).
    inversion Hwf as [|? ? He Hwf']; subst.
    cbn [List.map concat] in Hs.
    destruct e as [raw line|raw text n].
    + destruct He as (Hw & Hno & Hrc). cbn [raw_of] in Hs.
      unfold bind at 1.
      rewrite (@readline_decode_line enc raw (line ++ [NL]) _ st Hw Hc Hs).
      cbn [collect]. rewrite Hno, (@wire_line_pos enc raw _ Hw), Hrc.
      rewrite removelast_last.
      unfold bind at 1. destruct vb.
      * unfold print at 1. cbv beta iota.
        rewrite IH; [|exact Hwf' | exact Hf' | exact Hc | exact Hx
                     | reflexivity].
        simpl texts. unfold consumed. simpl. rewrite <- app_assoc.
        reflexivity.
      * unfold ret at 1. cbv beta iota.
        rewrite IH; [|exact Hwf' | exact Hf' | exact Hc | exact Hx
                     | reflexivity].
        reflexivity.
    + destruct He as (Hw & Hno & Hrc & tok & Ht & Hi). cbn [raw_of] in Hs.
      unfold bind at 1.
      rewrite (@readline_decode_line enc raw text _ st Hw Hc Hs).
      cbn [collect]. rewrite Hno, (@wire_line_pos enc raw _ Hw), Hrc, Ht, Hi.
      rewrite IH; [|exact Hwf' | exact Hf' | exact Hc | exact Hx
                   | reflexivity].
      reflexivity.
Qed.

Lemma close_tag_shown marker : in_str (close_tag marker) [] = false.
Proof. reflexivity. Qed.

(** When GrADS exits in the middle of a frame, after the opening tag
    and some complete lines but before the closing tag, the frame reader
    raises GrADSError "GrADS terminated." once the pipe is drained: the
    lines read so far are not returned, though they were printed when
    [verbose] is on. *)
Theorem parse_output_truncated marker vb enc pre opening otext body st :
  stdout_closed st = false ->
  exited st = true ->
  Forall (noise enc (open_tag marker)) pre ->
  wire_line enc opening otext ->
  in_str (open_tag marker) otext = true ->
  Forall (well_formed enc (close_tag marker)) body ->
  stdout st = concat pre ++ opening ++ concat (List.map raw_of body) ->
  _parse_output marker vb enc st =
  Raise terminated (consumed [] (if vb then texts body else []) st).
Proof.
  intros Hc Hx Hpre Hop Hin Hbody Hs.
  unfold _parse_output. cbv zeta. fold (open_tag marker) (close_tag marker).
  unfold bind at 1.
  assert (Hlen : (length pre + 2 <= rounds st)%nat).
  { unfold rounds. rewrite Hs, length_app.
    pose proof (concat_length_ge (noise_nonempty Hpre)).
    unfold bytes in *. lia. }
  rewrite (@seek_start_frame enc (open_tag marker) opening otext
             (concat (List.map raw_of body))
             Hop Hin pre (rounds st) [] st Hpre eq_refl Hlen Hc Hs).
  set (st1 := set_stdout (concat (List.map raw_of body)) st).
  pose proof (@collect_truncated enc vb (close_tag marker)
                (close_tag_shown marker) body (S (length body)) [] (-1) st1
                Hbody (Nat.lt_succ_diag_r _) Hc Hx eq_refl) as Hcol.
  unfold bind in Hcol |- *.
  destruct (readline_decode enc st1) as [out s2|e s2|s2] eqn:Hread;
    [|exact Hcol | exact Hcol].
  assert (Hfuel : (S (length body) <= rounds s2)%nat).
  { destruct body as [|e body'].
    - unfold rounds. simpl. lia.
    - inversion Hbody as [|? ? He Hbody']; subst.
      assert (Hw : exists text, wire_line enc (raw_of e) text).
      { destruct e; simpl in *; destruct He as [Hw _]; eauto. }
      destruct Hw as [text Hw].
      assert (Hs1 : stdout st1 =
                    raw_of e ++ concat (List.map raw_of body')).
      { reflexivity. }
      rewrite (@readline_decode_line enc (raw_of e) text _ st1 Hw Hc Hs1)
        in Hread.
      inversion Hread; subst. unfold rounds. simpl.
      pose proof (concat_length_ge (body_nonempty Hbody')) as L.
      rewrite length_map in L. unfold bytes in *. lia. }
  apply (@collect_more (S (length body)));
    [exact Hfuel | intros s H; discriminate H | exact Hcol].
Qed.

Lemma parse_output_truncated_witness :
  let st := mkSession true false []
              (blit "<IPC>" ++ [bNL] ++ blit "Config: v2.1.a3" ++ [bNL])
              [] false [] in
  _parse_output IPC true Utf8 st =
  Raise terminated (consumed [] [lit "Config: v2.1.a3"] st).
Proof.
  intros st.
  refine (@parse_output_truncated IPC true Utf8 []
            (blit "<IPC>" ++ [bNL]) (lit "<IPC>" ++ [NL])
            [Text (blit "Config: v2.1.a3" ++ [bNL]) (lit "Config: v2.1.a3")]
            st eq_refl eq_refl (Forall_nil _) _ eq_refl _ eq_refl).
  - wire_tac.
  - apply Forall_cons; [|apply Forall_nil].
    split; [wire_tac | split; reflexivity].
Defined.

(** ** Launch *)

(** The constructor dismisses the launch output through the first
    frame.  The lines of that frame are printed whatever [verbose] was
    given: the frame reader is called with its own default. *)
Theorem init_dismisses_banner vb pre opening body closing rest script :
  frame Utf8 IPC pre opening body closing ->
  __init__ vb (frame_bytes pre opening body closing ++ rest) script =
  Ok tt (mkSession vb false [] rest script false (texts body)).
Proof.
  intros Hf. unfold __init__, bind.
  rewrite (@parse_frame_run IPC true Utf8 pre opening body closing rest
             (mkSession vb false [] (frame_bytes pre opening body closing
                                     ++ rest) script false [])
             Hf eq_refl eq_refl).
  reflexivity.
Qed.

Lemma init_dismisses_banner_witness :
  __init__ false
    (frame_bytes sample_pre (blit "<IPC>" ++ [bNL]) sample_body
                 (blit "</IPC>" ++ [bNL]))
    [ack]
  = Ok tt (mkSession false false [] [] [ack] false
             [lit "Config: v2.1.a3"; lit "Grid Analysis and Display System"]).
Proof.
  rewrite <- (app_nil_r (frame_bytes _ _ _ _)).
  exact (@init_dismisses_banner false sample_pre (blit "<IPC>" ++ [bNL])
           sample_body (blit "</IPC>" ++ [bNL]) [] [ack] sample_frame).
Defined.

(** ** Flushing the pipe *)

(** [flush] resets the stream pointer: what was left in the pipe is
    read and dropped together with the answer to "q config", nothing is
    printed, and the pipe is empty afterwards.  What was left may end in
    the middle of a line; it only has to make up, with the answer, the
    lines of a frame. *)
Theorem flush_resets_pointer st reply later pre opening body closing :
  stdin_closed st = false ->
  stdout_closed st = false ->
  replies st = reply :: later ->
  stdout st ++ reply = frame_bytes pre opening body closing ->
  frame Utf8 IPC pre opening body closing ->
  in_str (lit "Syntax Error") (join [NL] (texts body)) = false ->
  flush st = Ok tt (told (blit "q config" ++ [bNL]) later st).
Proof.
  intros Hc Hoc Hr Hs Hf Hse. unfold flush. unfold bind at 1.
  rewrite (@cmd_live (lit "q config") false true Utf8 st
             (blit "q config" ++ [bNL]) reply later
             ltac:(discriminate) eq_refl Hc Hr).
  unfold await, bind. cbn [andb].
  rewrite (@parse_frame_run IPC false Utf8 pre opening body closing []
             (after_write (blit "q config" ++ [bNL]) reply later st) Hf Hoc).
  - rewrite Hse. unfold ret, consumed, after_write, told.
    cbn [verbose stdin_closed stdin_log replies stdout_closed console].
    rewrite app_nil_r. reflexivity.
  - cbn [after_write stdout]. rewrite Hs, app_nil_r. reflexivity.
Qed.

Lemma flush_resets_pointer_witness :
  let st := mkSession true false [] (blit " 0" ++ [bNL] ++ blit "</I")
                      [blit "PC>" ++ [bNL] ++ ack] false [] in
  flush st = Ok tt (told (blit "q config" ++ [bNL]) [] st).
Proof.
  intros st.
  refine (@flush_resets_pointer st (blit "PC>" ++ [bNL] ++ ack) []
            [blit " 0" ++ [bNL]; blit "</IPC>" ++ [bNL]]
            (blit "<IPC>" ++ [bNL])
            [Code (blit "<RC> 0" ++ [bNL]) (lit "<RC> 0" ++ [NL]) 0]
            (blit "</IPC>" ++ [bNL])
            eq_refl eq_refl eq_refl eq_refl _ eq_refl).
  split; [|split; [|split]].
  - apply Forall_cons; [|apply Forall_cons; [|apply Forall_nil]].
    + exists (lit " 0" ++ [NL]). split; [wire_tac | reflexivity].
    + exists (lit "</IPC>" ++ [NL]). split; [wire_tac | reflexivity].
  - exists (lit "<IPC>" ++ [NL]). split; [wire_tac | reflexivity].
  - apply Forall_cons; [|apply Forall_nil].
    split; [wire_tac | split; [reflexivity | split; [reflexivity|]]].
    exists (lit "0"). split; reflexivity.
  - exists (lit "</IPC>" ++ [NL]). split; [wire_tac | reflexivity].
Defined.

(** ** Waiting for a marker that does not come *)

Lemma move_loop_waits enc marker vb :
  forall pre fuel out st,
    Forall (passed enc marker) pre ->
    in_str marker out = false ->
    stdout_closed st = false ->
    exited st = false ->
    stdout st = concat (List.map fst pre) ->
    exists st', move_loop fuel marker enc vb out st = Hang st'.
Proof.
  induction pre as [|[raw text] pre IH]; intros fuel out st Hpre Hout Hc Hx Hs.
  - destruct fuel as [|fuel]; [exists st; reflexivity|].
    cbn [List.map concat] in Hs. cbn [move_loop]. rewrite Hout.
    exists st. unfold bind, readline_decode, bind, stdout_readline.
    rewrite Hc, Hs, Hx. reflexivity.
  - destruct fuel as [|fuel]; [exists st; reflexivity|].
    inversion Hpre as [|? ? [Hw Hno] Hpre']; subst. simpl in Hw, Hno.
    cbn [List.map concat fst] in Hs.
    cbn [move_loop]. rewrite Hout. unfold bind at 1.
    rewrite (@readline_decode_line enc raw text _ st Hw Hc Hs).
    unfold bind at 1. destruct vb.
    + unfold print at 1. cbv beta iota.
      rewrite (@wire_line_text enc raw text Hw).
      apply IH; [exact Hpre' | exact Hno | exact Hc | exact Hx | reflexivity].
    + unfold ret at 1. cbv beta iota.
      rewrite (@wire_line_text enc raw text Hw).
      apply IH; [exact Hpre' | exact Hno | exact Hc | exact Hx | reflexivity].
Qed.

(** [move_pointer] has no way out when the marker does not come: with
    GrADS alive and only complete lines without the marker in the pipe,
    it reads them all and then waits on the empty pipe, however long
    the loop is let run. *)
Theorem move_pointer_waits marker enc vb pre st :
  marker <> [] ->
  stdout_closed st = false ->
  exited st = false ->
  Forall (passed enc marker) pre ->
  stdout st = concat (List.map fst pre) ->
  (exists st', move_pointer marker enc vb st = Hang st') /\
  forall fuel, exists st', move_loop fuel marker enc vb [] st = Hang st'.
Proof.
  intros Hm Hc Hx Hpre Hs.
  assert (Hout : in_str marker [] = false)
    by (destruct marker; [contradiction | reflexivity]).
  split.
  - unfold move_pointer.
    exact (@move_loop_waits enc marker vb pre (rounds st) [] st
             Hpre Hout Hc Hx Hs).
  - intros fuel.
    exact (@move_loop_waits enc marker vb pre fuel [] st Hpre Hout Hc Hx Hs).
Qed.

Lemma display_failed_passed :
  Forall (passed Latin1 (lit "<FWRITE>")) display_failed.
Proof.
  repeat (apply Forall_cons; [split; [wire_tac | reflexivity]|]).
  apply Forall_nil.
Qed.

Lemma move_pointer_waits_witness :
  let st := streaming (concat (List.map fst display_failed)) ack in
  exists st', move_pointer (lit "<FWRITE>") Latin1 false st = Hang st'.
Proof.
  intros st.
  refine (proj1 (@move_pointer_waits (lit "<FWRITE>") Latin1 false
                   display_failed st _ eq_refl eq_refl
                   display_failed_passed eq_refl)).
  discriminate.
Defined.

Section Export_waits.
Context {lib : PyLib}.

(** An export never returns when "display" sends no data.  When the
    answer to "display" is made of complete lines none of which shows
    "<FWRITE>" (GrADS could not evaluate the expression, say) and GrADS
    goes on living, [exp] reads those lines and waits for ever: the
    answer is not looked at for an error, and "disable fwrite" is never
    sent. *)
Theorem exp_waits_for_data expr st e d st1 dexpr ack1 ack2 next later pre :
  env (lit "all") st = Ok e st1 ->
  GaEnv.dims e = Some d ->
  GaEnv.xfixed d = false ->
  GaEnv.yfixed d = false ->
  GaEnv.rank d = 2 ->
  encode_utf8 (sent_form (lit "display " ++ expr)) = Some dexpr ->
  stdin_closed st1 = false ->
  stdout_closed st1 = false ->
  stdout st1 = [] ->
  replies st1 = ack1 :: ack2 :: concat (List.map fst pre) :: next :: later ->
  acknowledged ack1 ->
  acknowledged ack2 ->
  Forall (passed Latin1 (lit "<FWRITE>")) pre ->
  exists st',
    exp expr st = Hang st' /\
    stdin_log st' = stdin_log st ++ env_queries ++ export_setup dexpr.
Proof.
  intros He Hd Hx Hy Hrk Ede Hc Hoc Hs Hr A1 A2 Hpre.
  destruct (@exp_until_display _ expr st e d st1 dexpr ack1 ack2 _
              (next :: later) He Hd Hx Hy Hrk Ede Hc Hoc Hs Hr A1 A2)
    as (s4 & -> & Hlog & Hc4 & Hoc4 & Hs4 & Hr4 & Hk4).
  assert (Hx4 : exited s4 = false) by (unfold exited; rewrite Hr4; reflexivity).
  destruct (@move_loop_waits Latin1 (lit "<FWRITE>") false pre (rounds s4)
              [] s4 Hpre eq_refl Hoc4 Hx4 Hs4) as [st' E].
  exists st'. unfold receive, bind, move_pointer. rewrite E.
  split; [reflexivity|].
  rewrite <- Hlog.
  pose proof (@quiet_move_loop (rounds s4) (lit "<FWRITE>") Latin1 false []
                s4) as Q.
  rewrite E in Q. destruct Q as (_ & _ & Q & _). exact Q.
Qed.
End Export_waits.

Lemma exp_waits_for_data_witness :
  exists st',
    exp (lit "ts + ")
        (scripted [dims_reply; ctlinfo_reply; gxout_reply; ack; ack;
                   concat (List.map fst display_failed); ack])
    = Hang st' /\
    stdin_log st' =
    env_queries ++ export_setup (blit "display ts + " ++ [bNL]).
Proof.
  assert (H : env (lit "all")
                  (scripted [dims_reply; ctlinfo_reply; gxout_reply; ack; ack;
                             concat (List.map fst display_failed); ack])
              = Ok _ _) by (vm_compute; reflexivity).
  exact (@exp_waits_for_data _ (lit "ts + ") _ _ _ _
           (blit "display ts + " ++ [bNL]) ack ack ack [] display_failed
           H eq_refl eq_refl eq_refl eq_refl eq_refl eq_refl eq_refl eq_refl
           eq_refl ack_acknowledged ack_acknowledged display_failed_passed).
Defined.

(** ** What an environment costs *)

Section Cost.
Context {lib : PyLib}.

(** Building an environment writes one query for each group that was
    asked for, in the order dims, ctlinfo, gxout, and nothing else. *)
Theorem init_writes_queries query st e st' :
  GaEnv.__init__ query st = Ok e st' ->
  stdin_log st' = stdin_log st ++ queries_of query.
Proof.
  unfold GaEnv.__init__, queries_of. intros H.
  destruct (GaEnv.wanted query "dims"), (GaEnv.wanted query "ctlinfo"),
    (GaEnv.wanted query "gxout");
    inv_ok;
    repeat match goal with
           | H : GaEnv.run_query _ _ = Ok _ _ |- _ =>
               apply run_query_log in H; destruct H as (? & ? & ?)
           end;
    repeat match goal with
           | H : GaEnv.parse_dims _ _ = Ok _ _ |- _ =>
               apply parse_dims_log in H
           | H : GaEnv.parse_ctl _ _ = Ok _ _ |- _ => apply parse_ctl_log in H
           | H : GaEnv.parse_gxout _ _ = Ok _ _ |- _ =>
               apply parse_gxout_log in H
           end;
    repeat match goal with
           | H : encode_utf8 _ = Some _ |- _ =>
               vm_compute in H; inversion H; subst; clear H
           end;
    repeat match goal with
           | H : stdin_log _ = _ |- _ => rewrite H; clear H
           end;
    cbn [app]; rewrite <- ?app_assoc; try rewrite app_nil_r; reflexivity.
Qed.

(** The answer to "query dims" must have six lines: with fewer, the
    environment is not built and the error is the IndexError of the
    missing line (or, from the file number on the first line, an
    IndexError or a ValueError), never a GrADSError. *)
Theorem dims_needs_six_lines qdims st :
  (length qdims < 6)%nat ->
  exists e,
    GaEnv.parse_dims qdims st = Raise e st /\
    (e = IndexError \/ e = ValueError).
Proof.
  intros Hl. unfold GaEnv.parse_dims.
  destruct qdims as [|l0 q];
    [exists IndexError; split; [reflexivity | left; reflexivity]|].
  unfold bind at 1. unfold item at 1. cbn [nth_error]. unfold ret at 1.
  unfold bind at 1. unfold item_last at 1.
  destruct (rev (split l0)) as [|w0 r];
    [exists IndexError; split; [reflexivity | left; reflexivity]|].
  unfold ret at 1. unfold bind at 1. unfold int_ at 1.
  destruct (int w0) as [n|];
    [|exists ValueError; split; [reflexivity | right; reflexivity]].
  unfold ret at 1.
  exists IndexError. split; [|left; reflexivity].
  do 5 (destruct q as [|? q];
        [reflexivity|];
        unfold bind at 1; unfold item at 1; cbn [nth_error];
        unfold ret at 1).
  simpl in Hl. lia.
Qed.
End Cost.

Lemma init_writes_queries_witness :
  exists e st',
    GaEnv.__init__ (lit "gxout") (scripted [gxout_reply]) = Ok e st' /\
    stdin_log st' = [blit "query gxout" ++ [bNL]].
Proof.
  assert (H : GaEnv.__init__ (lit "gxout") (scripted [gxout_reply])
              = Ok _ _) by (vm_compute; reflexivity).
  eexists. eexists. split; [exact H|].
  exact (@init_writes_queries _ (lit "gxout") _ _ _ H).
Defined.

Lemma dims_needs_six_lines_witness :
  exists e,
    GaEnv.parse_dims [lit "No files open"] idle = Raise e idle /\
    (e = IndexError \/ e = ValueError).
Proof.
  refine (@dims_needs_six_lines _ [lit "No files open"] idle _).
  simpl. lia.
Defined.
